(** * pheme treemap: squarified treemap layout and SVG rendering

    Shallow embedding of [pheme/templatetags/charts/treemap.py].

    Numbers.  The Python code computes with [int] and [float]; here every
    number is an exact rational ([Q]).  Statements that the specification
    makes "within floating-point tolerance" are therefore stated up to
    [Qeq] ([==]), the equality of rationals.

    Errors.  Python raises [ZeroDivisionError] on a zero divisor,
    [ValueError] on [max] of an empty list and [IndexError] on a list
    index out of range; the embedding threads these through a small error
    monad ([result]).  The recursion of [__squarify] is driven by a fuel
    argument; running out of it is the Python [RecursionError]. *)

From Stdlib Require Import QArith Qround ZArith List String Lia Lqa Bool Arith.
Import ListNotations.

Local Open Scope Q_scope.

(** ** Error monad *)

Inductive error : Type :=
| ZeroDivisionError
| ValueError
| IndexError
| RecursionError.

Inductive result (A : Type) : Type :=
| Ok (a : A)
| Raise (e : error).

Arguments Ok {A} a.
Arguments Raise {A} e.

Definition bind {A B : Type} (m : result A) (k : A -> result B) : result B :=
  match m with
  | Ok a => k a
  | Raise e => Raise e
  end.

Notation "x <- m ;; k" := (bind m (fun x => k))
  (at level 61, m at next level, right associativity).

(** ** Python arithmetic on exact rationals *)

(** [a < b] as a boolean. *)
Definition Qlt_bool (a b : Q) : bool := negb (Qle_bool b a).

(** [a / b]: true division, raising on a zero divisor. *)
Definition py_div (a b : Q) : result Q :=
  if Qeq_bool b 0 then Raise ZeroDivisionError else Ok (a / b).

(** [sum(xs)]: the builtin starts from [0] and adds from the left. *)
Definition py_sum (xs : list Q) : Q := fold_left Qplus xs 0.

(** [max(a, b)]: the builtin keeps its first argument unless the second
    is strictly greater. *)
Definition py_max2 (a b : Q) : Q := if Qlt_bool a b then b else a.

(** [max(xs)] of a list: [ValueError] when the list is empty. *)
Definition py_max (xs : list Q) : result Q :=
  match xs with
  | [] => Raise ValueError
  | x :: rest => Ok (fold_left py_max2 rest x)
  end.

(** [xs[:i]] and [xs[i:]] for an index [0 <= i]. *)
Definition slice_to {A : Type} (i : nat) (xs : list A) : list A := firstn i xs.
Definition slice_from {A : Type} (i : nat) (xs : list A) : list A := skipn i xs.

(** ** Rectangles *)

Record Rect : Type := mkRect { rx : Q; ry : Q; rdx : Q; rdy : Q }.

(** Equality of rectangles up to the equality of rationals. *)
Definition Rect_eq (a b : Rect) : Prop :=
  rx a == rx b /\ ry a == ry b /\ rdx a == rdx b /\ rdy a == rdy b.

Definition area (r : Rect) : Q := rdx r * rdy r.

(** [__create_rectangle]: adds the spacing of 1px. *)
Definition create_rectangle (x y dx dy : Q) : Rect :=
  let '(x, dx) := if Qlt_bool 2 dx then (x + 1, dx - 2) else (x, dx) in
  let '(y, dy) := if Qlt_bool 2 dy then (y + 1, dy - 2) else (y, dy) in
  mkRect x y dx dy.

(** The padding seen as a transform of a rectangle. *)
Definition pad (r : Rect) : Rect := create_rectangle (rx r) (ry r) (rdx r) (rdy r).

(** ** Row and column layout

    The layout functions are written once over the rectangle constructor
    [mk] they call.  The program calls them with [create_rectangle]; with
    [mkRect] they yield the rectangles as they are before the spacing is
    added, that is the very arguments handed to [__create_rectangle]. *)

Section Layout.

Variable mk : Q -> Q -> Q -> Q -> Rect.

(** The loop of [__layoutrow]: [y] advances by [size / width]. *)
Fixpoint layoutrow_loop (sizes : list Q) (x y width : Q) : result (list Rect) :=
  match sizes with
  | [] => Ok []
  | size :: rest =>
      h <- py_div size width ;;
      step <- py_div size width ;;
      rects <- layoutrow_loop rest x (y + step) width ;;
      Ok (mk x y width h :: rects)
  end.

(** [__layoutrow(sizes, x, y, _, dy)] *)
Definition layoutrow_with (sizes : list Q) (x y dx dy : Q) : result (list Rect) :=
  let covered_area := py_sum sizes in
  width <- py_div covered_area dy ;;
  layoutrow_loop sizes x y width.

(** The loop of [__layoutcol]: [x] advances by [size / height]. *)
Fixpoint layoutcol_loop (sizes : list Q) (x y height : Q) : result (list Rect) :=
  match sizes with
  | [] => Ok []
  | size :: rest =>
      w <- py_div size height ;;
      step <- py_div size height ;;
      rects <- layoutcol_loop rest (x + step) y height ;;
      Ok (mk x y w height :: rects)
  end.

(** [__layoutcol(sizes, x, y, dx, _)] *)
Definition layoutcol_with (sizes : list Q) (x y dx dy : Q) : result (list Rect) :=
  let covered_area := py_sum sizes in
  height <- py_div covered_area dx ;;
  layoutcol_loop sizes x y height.

(** [__layout]: a row when [dx >= dy], a column otherwise. *)
Definition layout_with (sizes : list Q) (x y dx dy : Q) : result (list Rect) :=
  if Qle_bool dy dx then layoutrow_with sizes x y dx dy
  else layoutcol_with sizes x y dx dy.

End Layout.

Definition layoutrow := layoutrow_with create_rectangle.
Definition layoutcol := layoutcol_with create_rectangle.
Definition layout := layout_with create_rectangle.

(** ** Leftover canvas *)

(** [__leftoverrow] *)
Definition leftoverrow (sizes : list Q) (x y dx dy : Q) : result (Q * Q * Q * Q) :=
  let covered_area := py_sum sizes in
  width <- py_div covered_area dy ;;
  let leftover_x := x + width in
  let leftover_y := y in
  let leftover_dx := dx - width in
  let leftover_dy := dy in
  Ok (leftover_x, leftover_y, leftover_dx, leftover_dy).

(** [__leftovercol] *)
Definition leftovercol (sizes : list Q) (x y dx dy : Q) : result (Q * Q * Q * Q) :=
  let covered_area := py_sum sizes in
  height <- py_div covered_area dx ;;
  let leftover_x := x in
  let leftover_y := y + height in
  let leftover_dx := dx in
  let leftover_dy := dy - height in
  Ok (leftover_x, leftover_y, leftover_dx, leftover_dy).

(** [__leftover] *)
Definition leftover (sizes : list Q) (x y dx dy : Q) : result (Q * Q * Q * Q) :=
  if Qle_bool dy dx then leftoverrow sizes x y dx dy
  else leftovercol sizes x y dx dy.

(** ** Split search *)

(** The list-comprehension loop of [worst]: one ratio per rectangle. *)
Fixpoint ratios (rects : list Rect) : result (list Q) :=
  match rects with
  | [] => Ok []
  | rect :: rest =>
      a <- py_div (rdx rect) (rdy rect) ;;
      b <- py_div (rdy rect) (rdx rect) ;;
      qs <- ratios rest ;;
      Ok (py_max2 a b :: qs)
  end.

(** The inner function [worst(i)] of [__find_split]. *)
Definition worst (sizes : list Q) (x y dx dy : Q) (i : nat) : result Q :=
  rects <- layout (slice_to i sizes) x y dx dy ;;
  qs <- ratios rects ;;
  py_max qs.

(** The loop [for i in range(1, len(sizes))] of [__find_split], run over
    the candidates that are left; [len(sizes) - 1] when it runs out. *)
Fixpoint find_split_loop (sizes : list Q) (x y dx dy : Q) (candidates : list nat)
  : result nat :=
  match candidates with
  | [] => Ok (List.length sizes - 1)%nat
  | i :: rest =>
      a <- worst sizes x y dx dy i ;;
      b <- worst sizes x y dx dy (i + 1) ;;
      if Qlt_bool a b then Ok i else find_split_loop sizes x y dx dy rest
  end.

(** [__find_split]; [range(1, n)] is [seq 1 (n - 1)]. *)
Definition find_split (sizes : list Q) (x y dx dy : Q) : result nat :=
  find_split_loop sizes x y dx dy (seq 1 (List.length sizes - 1)).

(** ** The layout engine *)

(** The comprehension [[size * total_area / total_size for size in sizes]]. *)
Fixpoint rescale (sizes : list Q) (total_area total_size : Q) : result (list Q) :=
  match sizes with
  | [] => Ok []
  | size :: rest =>
      s <- py_div (size * total_area) total_size ;;
      ss <- rescale rest total_area total_size ;;
      Ok (s :: ss)
  end.

(** [__squarify], over the rectangle constructor [mk] that the layout of
    each band calls; the split search always runs on the rectangles of
    [__layout].  One unit of [fuel] is one nested call. *)
Fixpoint squarify_fuel (mk : Q -> Q -> Q -> Q -> Rect) (fuel : nat)
  (sizes : list Q) (x y dx dy : Q) : result (list Rect) :=
  match fuel with
  | O => Raise RecursionError
  | S fuel' =>
      if (List.length sizes =? 0)%nat then Ok []
      else
        let total_size := py_sum sizes in
        let total_area := dx * dy in
        sizes <- rescale sizes total_area total_size ;;
        if (List.length sizes =? 1)%nat then layout_with mk sizes x y dx dy
        else
          i <- find_split sizes x y dx dy ;;
          let current := slice_to i sizes in
          let remaining := slice_from i sizes in
          band <- layout_with mk current x y dx dy ;;
          lo <- leftover current x y dx dy ;;
          let '(lx, ly, ldx, ldy) := lo in
          rest <- squarify_fuel mk fuel' remaining lx ly ldx ldy ;;
          Ok (band ++ rest)
  end.

(** Every nested call works on a strictly shorter list, so one unit of
    fuel per size, and one for the outermost call, is all a run can use. *)
Definition squarify_with (mk : Q -> Q -> Q -> Q -> Rect)
  (sizes : list Q) (x y dx dy : Q) : result (list Rect) :=
  squarify_fuel mk (S (List.length sizes)) sizes x y dx dy.

(** [__squarify] as the program runs it. *)
Definition squarify := squarify_with create_rectangle.

(** The same run with the spacing left out: the rectangles before
    [__create_rectangle] insets them. *)
Definition squarify_unpadded := squarify_with mkRect.

(** ** Input data *)

Local Set Warnings "-register-all".

(** The Python values the filter can be handed; a [dict] keeps its
    insertion order and is an association list. *)
Inductive value : Type :=
| VNone
| VBool (b : bool)
| VNum (q : Q)
| VStr (s : string)
| VList (l : list value)
| VDict (items : list (string * value)).

(** [isinstance(v, numbers.Number)], with the number when it holds
    ([bool] is a subclass of [int]). *)
Definition as_number (v : value) : option Q :=
  match v with
  | VBool true => Some 1
  | VBool false => Some 0
  | VNum q => Some q
  | _ => None
  end.

(** The inner loop of [__transform_to_tree_data] over [val.items()],
    threading [color] and [val_sum]. *)
Fixpoint sum_items (items : list (string * value)) (color : option string)
  (val_sum : Q) : option string * Q :=
  match items with
  | [] => (color, val_sum)
  | (item_key, item_val) :: rest =>
      match as_number item_val with
      | Some n =>
          let val_sum := val_sum + n in
          let color :=
            match color with
            | None => if Qlt_bool 0 n then Some item_key else None
            | Some c => Some c
            end in
          sum_items rest color val_sum
      | None => sum_items rest color val_sum
      end
  end.

(** The outer loop over [data.items()], threading the three lists. *)
Fixpoint shape_items (items : list (string * value))
  (values : list Q) (labels color_keys : list string)
  : list Q * list string * list string :=
  match items with
  | [] => (values, labels, color_keys)
  | (key, val) :: rest =>
      let '(color, val_sum) :=
        match val with
        | VDict sub => sum_items sub None 0
        | _ => (None, 0)
        end in
      match color with
      | Some c =>
          if Qlt_bool 0 val_sum
          then shape_items rest (values ++ [val_sum]) (labels ++ [key]) (color_keys ++ [c])
          else shape_items rest values labels color_keys
      | None => shape_items rest values labels color_keys
      end
  end.

(** [__transform_to_tree_data] *)
Definition transform_to_tree_data (data : value)
  : list Q * list string * list string :=
  match data with
  | VDict items => shape_items items [] [] []
  | _ => ([], [], [])
  end.

(** ** Rendering *)

(** One [<g>] group of the markup: the fields that [__ELEMENT_TEMPLATE]
    formats. *)
Record Element : Type := mkElement {
  e_x : Q;
  e_y : Q;
  e_width : Q;
  e_height : Q;
  e_color : option string;
  e_border_color : string;
  e_label_x : Q;
  e_label_y : Q;
  e_label : string
}.

(** The document that [__TEMPLATE] formats. *)
Record Svg : Type := mkSvg {
  svg_width : Q;
  svg_height : Q;
  svg_rects : list Element
}.

(** [xs[i]] *)
Definition py_index {A : Type} (xs : list A) (i : nat) : result A :=
  match nth_error xs i with
  | Some a => Ok a
  | None => Raise IndexError
  end.

(** [s[:n]] for a string; a negative [n] counts from the end. *)
Definition str_slice_to (n : Z) (s : string) : string :=
  if (0 <=? n)%Z then substring 0 (Z.to_nat n) s
  else substring 0 (String.length s - Z.to_nat (- n)) s.

(** [dict.get(key)] *)
Fixpoint dict_get (d : list (string * string)) (key : string) : option string :=
  match d with
  | [] => None
  | (k, v) :: rest => if String.eqb k key then Some v else dict_get rest key
  end.

Definition len (s : string) : Q := inject_Z (Z.of_nat (String.length s)).

Section Treemap.

(** The palette [_severity_class_colors] of [pheme.templatetags.charts]. *)
Variable severity_class_colors : list (string * string).

(** The loop [for i, d in enumerate(sizes)] of [treemap]. *)
Fixpoint render_loop (rects : list Rect) (i : nat) (label color_keys : list string)
  (fontsize : Q) (border_color : string) (title_color : list (string * string))
  (elements : list Element) : result (list Element) :=
  match rects with
  | [] => Ok elements
  | d :: rest =>
      l <- py_index label i ;;
      let label_size_in_px := len l * fontsize in
      let label_x := rx d + 1 in
      let label_y := ry d + fontsize / 2 + 5 in
      q <- py_div (rdx d) label_size_in_px ;;
      let max_label_len := Qceiling (q * len l) in
      let max_label_len := if Qle_bool (rdy d) fontsize then 0%Z else max_label_len in
      k <- py_index color_keys i ;;
      let element :=
        mkElement (rx d) (ry d) (rdx d) (rdy d) (dict_get title_color k)
          border_color label_x label_y (str_slice_to max_label_len l) in
      render_loop rest (S i) label color_keys fontsize border_color title_color
        (elements ++ [element])
  end.

(** [treemap]; [title_color] is [None] when the caller leaves it out. *)
Definition treemap (data : value) (width height fontsize : Q)
  (border_color : string) (title_color : option (list (string * string)))
  : result Svg :=
  let title_color :=
    match title_color with
    | None | Some [] => severity_class_colors
    | Some tc => tc
    end in
  let '(sizes, label, color_keys) := transform_to_tree_data data in
  sizes <- squarify sizes 0 0 width height ;;
  elements <- render_loop sizes 0 label color_keys fontsize border_color title_color [] ;;
  Ok (mkSvg width height elements).

End Treemap.

(** * Vocabulary of the properties *)

(** Every size is strictly positive. *)
Definition positive (xs : list Q) : Prop := Forall (fun s => 0 < s) xs.

(** A rectangle lies inside the canvas [(x, y, dx, dy)]. *)
Definition inside (x y dx dy : Q) (r : Rect) : Prop :=
  x <= rx r /\ y <= ry r /\ rx r + rdx r <= x + dx /\ ry r + rdy r <= y + dy.

(** The result of a run put through [f], an error left as it is. *)
Definition rmap {A B : Type} (f : A -> B) (m : result A) : result B :=
  match m with
  | Ok a => Ok (f a)
  | Raise e => Raise e
  end.

(** [worst(j) < worst(j + 1)], both being defined. *)
Definition improves (sizes : list Q) (x y dx dy : Q) (j : nat) : Prop :=
  exists a b,
    worst sizes x y dx dy j = Ok a /\ worst sizes x y dx dy (j + 1) = Ok b /\ a < b.

(** The rectangle [r] covers the share of the canvas that the weight [s]
    has in the total. *)
Definition share (dx dy total : Q) (r : Rect) (s : Q) : Prop :=
  area r == s * (dx * dy) / total.

(** The sum of every numeric value of a sub-mapping, whatever its sign. *)
Fixpoint numeric_sum (sub : list (string * value)) : Q :=
  match sub with
  | [] => 0
  | (_, v) :: rest =>
      match as_number v with
      | Some n => n + numeric_sum rest
      | None => numeric_sum rest
      end
  end.

(** The sum of the strictly positive numeric values only. *)
Fixpoint positive_sum (sub : list (string * value)) : Q :=
  match sub with
  | [] => 0
  | (_, v) :: rest =>
      match as_number v with
      | Some n => if Qlt_bool 0 n then n + positive_sum rest else positive_sum rest
      | None => positive_sum rest
      end
  end.

(** The first sub-key whose numeric value is strictly positive. *)
Fixpoint first_positive_key (sub : list (string * value)) : option string :=
  match sub with
  | [] => None
  | (k, v) :: rest =>
      match as_number v with
      | Some n => if Qlt_bool 0 n then Some k else first_positive_key rest
      | None => first_positive_key rest
      end
  end.

(** An outer entry is kept when its value is a mapping with a positive
    numeric value in it and a strictly positive total. *)
Definition retained (kv : string * value) : bool :=
  match snd kv with
  | VDict sub =>
      match first_positive_key sub with
      | Some _ => Qlt_bool 0 (numeric_sum sub)
      | None => false
      end
  | _ => false
  end.

(** The weight of a kept entry is the sum of all its numeric values. *)
Definition weight_of (w : Q) (kv : string * value) : Prop :=
  exists sub, snd kv = VDict sub /\ w == numeric_sum sub /\ 0 < w.

(** The colour key of a kept entry is its first positive sub-key. *)
Definition color_of (c : string) (kv : string * value) : Prop :=
  exists sub, snd kv = VDict sub /\ first_positive_key sub = Some c.

(** The reading of the weight as the sum of the positive values only. *)
Definition weights_are_positive_sums (items : list (string * value)) : Prop :=
  let '(values, _, _) := transform_to_tree_data (VDict items) in
  Forall2 (fun w kv => exists sub, snd kv = VDict sub /\ w == positive_sum sub)
    values (filter retained items).

(** A group whose rectangle is no higher than the font carries no text. *)
Definition suppressed (fontsize : Q) (e : Element) : Prop :=
  e_height e <= fontsize -> e_label e = EmptyString.

(** Two hosts on a canvas that is lower than the font. *)
Definition flat_hosts : value :=
  VDict [("host1"%string, VDict [("high"%string, VNum 12)]);
         ("host2"%string, VDict [("medium"%string, VNum 4)])].

(** [isinstance(data, dict)] *)
Definition is_mapping (data : value) : bool :=
  match data with
  | VDict _ => true
  | _ => false
  end.


(** The only error of a run, if any, is a division by zero. *)
Definition div_only {A : Type} (m : result A) : Prop :=
  match m with
  | Ok _ => True
  | Raise e => e = ZeroDivisionError
  end.


(** Each rectangle starts, along the axis [pos] with extent [ext], exactly
    where the one before it ends; the first one starts at [start]. *)
Fixpoint chained (pos ext : Rect -> Q) (start : Q) (rects : list Rect) : Prop :=
  match rects with
  | [] => True
  | r :: rest => pos r = start /\ chained pos ext (start + ext r) rest
  end.

(** No numeric value of a sub-mapping is negative. *)
Definition no_negative (sub : list (string * value)) : Prop :=
  Forall (fun kv => match as_number (snd kv) with
                    | Some n => 0 <= n
                    | None => True
                    end) sub.

(** The three sequences of two shapings, joined one by one. *)
Definition join3 (a b : list Q * list string * list string)
  : list Q * list string * list string :=
  let '(v1, l1, c1) := a in
  let '(v2, l2, c2) := b in
  (v1 ++ v2, l1 ++ l2, c1 ++ c2).


(** The palette [treemap] uses: the default one unless the caller gives
    a non-empty one. *)
Definition palette_of (severity_class_colors : list (string * string))
  (title_color : option (list (string * string))) : list (string * string) :=
  match title_color with
  | None | Some [] => severity_class_colors
  | Some tc => tc
  end.

(** * Properties *)

(** ** Booleans, division, sums *)

Lemma Qlt_bool_iff (a b : Q) : Qlt_bool a b = true <-> a < b.
Proof.
  unfold Qlt_bool. rewrite negb_true_iff.
  split; intros H.
  - apply Qnot_le_lt. intros Hle. apply Qle_bool_iff in Hle. congruence.
  - destruct (Qle_bool b a) eqn:E; [|reflexivity].
    apply Qle_bool_iff in E. apply Qle_not_lt in E. contradiction.
Qed.

Lemma Qlt_bool_false_iff (a b : Q) : Qlt_bool a b = false <-> b <= a.
Proof.
  unfold Qlt_bool. rewrite negb_false_iff. apply Qle_bool_iff.
Qed.

Lemma py_div_ok (a b : Q) : ~ b == 0 -> py_div a b = Ok (a / b).
Proof.
  intros Hb. unfold py_div.
  destruct (Qeq_bool b 0) eqn:E; [|reflexivity].
  apply Qeq_bool_iff in E. contradiction.
Qed.

Lemma fold_left_Qplus (xs : list Q) (acc : Q) :
  fold_left Qplus xs acc == acc + py_sum xs.
Proof.
  unfold py_sum. revert acc.
  induction xs as [|a xs IH]; intros acc; simpl.
  - lra.
  - rewrite (IH (acc + a)), (IH (0 + a)). lra.
Qed.

Lemma py_sum_cons (a : Q) (xs : list Q) : py_sum (a :: xs) == a + py_sum xs.
Proof.
  unfold py_sum at 1. simpl. rewrite fold_left_Qplus. lra.
Qed.

Lemma py_sum_app (xs ys : list Q) : py_sum (xs ++ ys) == py_sum xs + py_sum ys.
Proof.
  induction xs as [|a xs IH]; simpl.
  - unfold py_sum at 2. simpl. lra.
  - rewrite !py_sum_cons, IH. lra.
Qed.

Lemma py_sum_nonneg (xs : list Q) : positive xs -> 0 <= py_sum xs.
Proof.
  induction 1 as [|a xs Ha _ IH].
  - unfold py_sum. simpl. lra.
  - rewrite py_sum_cons. lra.
Qed.

Lemma py_sum_pos (xs : list Q) : positive xs -> xs <> [] -> 0 < py_sum xs.
Proof.
  intros [|a l Ha Hl] Hne; [congruence|].
  rewrite py_sum_cons. pose proof (py_sum_nonneg l Hl). lra.
Qed.

Lemma positive_firstn (i : nat) (xs : list Q) : positive xs -> positive (firstn i xs).
Proof.
  intros H. apply Forall_forall. intros a Ha.
  eapply Forall_forall in H; [exact H|].
  rewrite <- (firstn_skipn i xs). apply in_or_app. now left.
Qed.

Lemma positive_skipn (i : nat) (xs : list Q) : positive xs -> positive (skipn i xs).
Proof.
  intros H. apply Forall_forall. intros a Ha.
  eapply Forall_forall in H; [exact H|].
  rewrite <- (firstn_skipn i xs). apply in_or_app. now right.
Qed.

Lemma py_sum_split (i : nat) (xs : list Q) :
  py_sum xs == py_sum (firstn i xs) + py_sum (skipn i xs).
Proof.
  rewrite <- py_sum_app, firstn_skipn. reflexivity.
Qed.

Lemma Qdiv_pos (a b : Q) : 0 < a -> 0 < b -> 0 < a / b.
Proof.
  intros Ha Hb. apply Qlt_shift_div_l; [exact Hb|]. lra.
Qed.

(** ** The padding transform *)

(** C6: on each axis on its own, an extent strictly greater than 2 moves
    the origin by 1 and shrinks the extent by 2, and an extent of at most
    2 leaves the axis as it is; the result is a function of the rectangle
    alone. *)
Theorem create_rectangle_axes (x y dx dy : Q) :
  let r := create_rectangle x y dx dy in
  (2 < dx -> rx r = x + 1 /\ rdx r = dx - 2) /\
  (dx <= 2 -> rx r = x /\ rdx r = dx) /\
  (2 < dy -> ry r = y + 1 /\ rdy r = dy - 2) /\
  (dy <= 2 -> ry r = y /\ rdy r = dy).
Proof.
  unfold create_rectangle.
  destruct (Qlt_bool 2 dx) eqn:Ex; destruct (Qlt_bool 2 dy) eqn:Ey; simpl;
    try apply Qlt_bool_iff in Ex; try apply Qlt_bool_iff in Ey;
    try apply Qlt_bool_false_iff in Ex; try apply Qlt_bool_false_iff in Ey;
    repeat split; try reflexivity; intros; exfalso; lra.
Qed.

Lemma create_rectangle_axes_witness :
  let r := create_rectangle 0 0 75 1 in
  (rx r = 0 + 1 /\ rdx r = 75 - 2) /\ (ry r = 0 /\ rdy r = 1).
Proof.
  destruct (create_rectangle_axes 0 0 75 1) as (Hx & _ & _ & Hy).
  split; [apply Hx | apply Hy]; lra.
Defined.

Lemma create_rectangle_cases (x y dx dy : Q) :
  (2 < dx /\ rx (create_rectangle x y dx dy) = x + 1
          /\ rdx (create_rectangle x y dx dy) = dx - 2
   \/ dx <= 2 /\ rx (create_rectangle x y dx dy) = x
              /\ rdx (create_rectangle x y dx dy) = dx) /\
  (2 < dy /\ ry (create_rectangle x y dx dy) = y + 1
          /\ rdy (create_rectangle x y dx dy) = dy - 2
   \/ dy <= 2 /\ ry (create_rectangle x y dx dy) = y
              /\ rdy (create_rectangle x y dx dy) = dy).
Proof.
  unfold create_rectangle.
  destruct (Qlt_bool 2 dx) eqn:Ex; destruct (Qlt_bool 2 dy) eqn:Ey; simpl;
    try apply Qlt_bool_iff in Ex; try apply Qlt_bool_iff in Ey;
    try apply Qlt_bool_false_iff in Ex; try apply Qlt_bool_false_iff in Ey;
    split; auto.
Qed.

Lemma pad_pos (r : Rect) :
  0 < rdx r -> 0 < rdy r -> 0 < rdx (pad r) /\ 0 < rdy (pad r).
Proof.
  intros Hx Hy. unfold pad.
  destruct (create_rectangle_cases (rx r) (ry r) (rdx r) (rdy r))
    as ([(A & _ & ->)|(A & _ & ->)] & [(B & _ & ->)|(B & _ & ->)]); lra.
Qed.


Lemma inside_sub (x y dx dy x' y' dx' dy' : Q) (r : Rect) :
  x <= x' -> y <= y' -> x' + dx' <= x + dx -> y' + dy' <= y + dy ->
  inside x' y' dx' dy' r -> inside x y dx dy r.
Proof.
  unfold inside. intros ? ? ? ? (H1 & H2 & H3 & H4). repeat split; lra.
Qed.

(** ** Padded and unpadded runs *)

Lemma layoutrow_loop_pad (sizes : list Q) (x y width : Q) :
  layoutrow_loop create_rectangle sizes x y width
  = rmap (map pad) (layoutrow_loop mkRect sizes x y width).
Proof.
  revert y. induction sizes as [|s sizes IH]; intros y; simpl; [reflexivity|].
  destruct (py_div s width) as [h|e]; simpl; [|reflexivity].
  rewrite IH. destruct (layoutrow_loop mkRect sizes x (y + h) width); reflexivity.
Qed.

Lemma layoutcol_loop_pad (sizes : list Q) (x y height : Q) :
  layoutcol_loop create_rectangle sizes x y height
  = rmap (map pad) (layoutcol_loop mkRect sizes x y height).
Proof.
  revert x. induction sizes as [|s sizes IH]; intros x; simpl; [reflexivity|].
  destruct (py_div s height) as [w|e]; simpl; [|reflexivity].
  rewrite IH. destruct (layoutcol_loop mkRect sizes (x + w) y height); reflexivity.
Qed.

Lemma layout_pad (sizes : list Q) (x y dx dy : Q) :
  layout sizes x y dx dy = rmap (map pad) (layout_with mkRect sizes x y dx dy).
Proof.
  unfold layout, layout_with, layoutrow_with, layoutcol_with.
  destruct (Qle_bool dy dx).
  - destruct (py_div (py_sum sizes) dy); simpl; [apply layoutrow_loop_pad|reflexivity].
  - destruct (py_div (py_sum sizes) dx); simpl; [apply layoutcol_loop_pad|reflexivity].
Qed.

Lemma squarify_fuel_pad (fuel : nat) (sizes : list Q) (x y dx dy : Q) :
  squarify_fuel create_rectangle fuel sizes x y dx dy
  = rmap (map pad) (squarify_fuel mkRect fuel sizes x y dx dy).
Proof.
  revert sizes x y dx dy.
  induction fuel as [|fuel IH]; intros sizes x y dx dy; simpl; [reflexivity|].
  destruct (List.length sizes =? 0)%nat; [reflexivity|].
  destruct (rescale sizes (dx * dy) (py_sum sizes)) as [sizes'|e]; simpl; [|reflexivity].
  fold layout. rewrite layout_pad.
  destruct (List.length sizes' =? 1)%nat; [reflexivity|].
  destruct (find_split sizes' x y dx dy) as [i|e]; simpl; [|reflexivity].
  rewrite layout_pad.
  destruct (layout_with mkRect (slice_to i sizes') x y dx dy) as [band|e]; simpl;
    [|reflexivity].
  destruct (leftover (slice_to i sizes') x y dx dy) as [[[[lx ly] ldx] ldy]|e]; simpl;
    [|reflexivity].
  rewrite IH.
  destruct (squarify_fuel mkRect fuel (slice_from i sizes') lx ly ldx ldy); simpl;
    [|reflexivity].
  now rewrite map_app.
Qed.

(** The rectangles [__squarify] returns are the unpadded ones, each put
    through the padding. *)
Lemma squarify_pad (sizes : list Q) (x y dx dy : Q) :
  squarify sizes x y dx dy = rmap (map pad) (squarify_unpadded sizes x y dx dy).
Proof. apply squarify_fuel_pad. Qed.

(** ** Layout of one band, before the spacing *)

Lemma layoutrow_loop_spec (sizes : list Q) (x y width : Q) :
  0 < width -> positive sizes ->
  exists rects,
    layoutrow_loop mkRect sizes x y width = Ok rects /\
    Forall2 (fun r s => area r == s) rects sizes /\
    Forall (fun r => rx r = x /\ rdx r = width /\ 0 < rdy r /\
                     y <= ry r /\ ry r + rdy r <= y + py_sum sizes / width) rects.
Proof.
  intros Hw Hpos. revert y.
  induction Hpos as [|s sizes Hs Hpos IH]; intros y; simpl.
  - exists []. repeat split; constructor.
  - rewrite py_div_ok by lra. simpl.
    destruct (IH (y + s / width)) as (rects & -> & Hareas & Hgeo). simpl.
    eexists. split; [reflexivity|].
    pose proof (Qdiv_pos s width Hs Hw) as Hh.
    pose proof (py_sum_nonneg sizes Hpos) as Hsum.
    assert (Hcons : py_sum (s :: sizes) / width == s / width + py_sum sizes / width).
    { rewrite py_sum_cons. field. lra. }
    assert (0 <= py_sum sizes / width) as Hrest.
    { apply Qle_shift_div_l; [exact Hw|]. lra. }
    split; [|constructor].
    + constructor; [|exact Hareas]. unfold area. simpl. field. lra.
    + simpl. repeat split; try reflexivity; try lra.
    + eapply Forall_impl; [|exact Hgeo]. simpl.
      intros r (H1 & H2 & H3 & H4 & H5). repeat split; try assumption; lra.
Qed.

Lemma layoutcol_loop_spec (sizes : list Q) (x y height : Q) :
  0 < height -> positive sizes ->
  exists rects,
    layoutcol_loop mkRect sizes x y height = Ok rects /\
    Forall2 (fun r s => area r == s) rects sizes /\
    Forall (fun r => ry r = y /\ rdy r = height /\ 0 < rdx r /\
                     x <= rx r /\ rx r + rdx r <= x + py_sum sizes / height) rects.
Proof.
  intros Hh Hpos. revert x.
  induction Hpos as [|s sizes Hs Hpos IH]; intros x; simpl.
  - exists []. repeat split; constructor.
  - rewrite py_div_ok by lra. simpl.
    destruct (IH (x + s / height)) as (rects & -> & Hareas & Hgeo). simpl.
    eexists. split; [reflexivity|].
    pose proof (Qdiv_pos s height Hs Hh) as Hw.
    pose proof (py_sum_nonneg sizes Hpos) as Hsum.
    assert (Hcons : py_sum (s :: sizes) / height == s / height + py_sum sizes / height).
    { rewrite py_sum_cons. field. lra. }
    assert (0 <= py_sum sizes / height) as Hrest.
    { apply Qle_shift_div_l; [exact Hh|]. lra. }
    split; [|constructor].
    + constructor; [|exact Hareas]. unfold area. simpl. field. lra.
    + simpl. repeat split; try reflexivity; try lra.
    + eapply Forall_impl; [|exact Hgeo]. simpl.
      intros r (H1 & H2 & H3 & H4 & H5). repeat split; try assumption; lra.
Qed.

(** A band of positive sizes is laid out without error; each rectangle has
    the area of its size and positive extents, and the band stays inside
    the canvas as long as the sizes do not exceed its area. *)
Lemma layout_unpadded_spec (sizes : list Q) (x y dx dy : Q) :
  positive sizes -> sizes <> [] -> 0 < dx -> 0 < dy ->
  exists rects,
    layout_with mkRect sizes x y dx dy = Ok rects /\
    Forall2 (fun r s => area r == s) rects sizes /\
    Forall (fun r => 0 < rdx r /\ 0 < rdy r) rects /\
    (py_sum sizes <= dx * dy -> Forall (inside x y dx dy) rects).
Proof.
  intros Hpos Hne Hdx Hdy.
  pose proof (py_sum_pos sizes Hpos Hne) as HS.
  unfold layout_with, layoutrow_with, layoutcol_with.
  destruct (Qle_bool dy dx).
  - rewrite py_div_ok by lra. simpl.
    pose proof (Qdiv_pos _ _ HS Hdy) as Hw.
    destruct (layoutrow_loop_spec sizes x y _ Hw Hpos) as (rects & -> & Ha & Hg).
    exists rects. split; [reflexivity|]. split; [exact Ha|]. split.
    + eapply Forall_impl; [|exact Hg]. simpl.
      intros r (H1 & H2 & H3 & _). rewrite H2. split; assumption.
    + intros Hle. eapply Forall_impl; [|exact Hg]. simpl.
      intros r (H1 & H2 & H3 & H4 & H5). unfold inside. rewrite H1, H2.
      assert (py_sum sizes / (py_sum sizes / dy) == dy) as E by (field; lra).
      assert (py_sum sizes / dy <= dx) as Hwd.
      { apply Qle_shift_div_r; [exact Hdy|exact Hle]. }
      rewrite E in H5. repeat split; lra.
  - rewrite py_div_ok by lra. simpl.
    pose proof (Qdiv_pos _ _ HS Hdx) as Hh.
    destruct (layoutcol_loop_spec sizes x y _ Hh Hpos) as (rects & -> & Ha & Hg).
    exists rects. split; [reflexivity|]. split; [exact Ha|]. split.
    + eapply Forall_impl; [|exact Hg]. simpl.
      intros r (H1 & H2 & H3 & _). rewrite H2. split; assumption.
    + intros Hle. eapply Forall_impl; [|exact Hg]. simpl.
      intros r (H1 & H2 & H3 & H4 & H5). unfold inside. rewrite H1, H2.
      assert (py_sum sizes / (py_sum sizes / dx) == dx) as E by (field; lra).
      assert (py_sum sizes / dx <= dy) as Hhd.
      { apply Qle_shift_div_r; [exact Hdx|]. lra. }
      rewrite E in H5. repeat split; lra.
Qed.

(** ** Split search *)

Lemma ratios_ok (rects : list Rect) :
  Forall (fun r => 0 < rdx r /\ 0 < rdy r) rects ->
  exists qs, ratios rects = Ok qs /\ List.length qs = List.length rects.
Proof.
  induction 1 as [|r rects [Hx Hy] _ (qs & IH & Hlen)]; simpl.
  - now exists [].
  - rewrite !py_div_ok by lra. simpl. rewrite IH. simpl.
    eexists. split; [reflexivity|]. simpl. now rewrite Hlen.
Qed.

Lemma firstn_nonempty {A : Type} (i : nat) (xs : list A) :
  (1 <= i)%nat -> xs <> [] -> firstn i xs <> [].
Proof.
  destruct i; [lia|]. destruct xs; [congruence|]. discriminate.
Qed.

(** [worst(i)] is defined for every prefix length [i >= 1]. *)
Lemma worst_ok (sizes : list Q) (x y dx dy : Q) (i : nat) :
  positive sizes -> sizes <> [] -> 0 < dx -> 0 < dy -> (1 <= i)%nat ->
  exists w, worst sizes x y dx dy i = Ok w.
Proof.
  intros Hpos Hne Hdx Hdy Hi. unfold worst, slice_to.
  rewrite layout_pad.
  destruct (layout_unpadded_spec (firstn i sizes) x y dx dy)
    as (rects & -> & Ha & Hp & _); auto using positive_firstn, firstn_nonempty.
  simpl.
  destruct (ratios_ok (map pad rects)) as (qs & -> & Hlen).
  { apply Forall_map. eapply Forall_impl; [|exact Hp].
    intros r [? ?]. now apply pad_pos. }
  simpl. destruct qs as [|q qs].
  - exfalso. rewrite length_map in Hlen. apply Forall2_length in Ha.
    pose proof (firstn_nonempty i sizes Hi Hne) as Hf.
    destruct (firstn i sizes); [congruence|]. simpl in *. lia.
  - simpl. eauto.
Qed.

Lemma find_split_loop_seq (sizes : list Q) (x y dx dy : Q) :
  positive sizes -> sizes <> [] -> 0 < dx -> 0 < dy ->
  forall k a, (1 <= a)%nat ->
  exists i,
    find_split_loop sizes x y dx dy (seq a k) = Ok i /\
    (((a <= i < a + k)%nat /\ improves sizes x y dx dy i /\
      (forall j, (a <= j < i)%nat -> ~ improves sizes x y dx dy j))
     \/ (i = (List.length sizes - 1)%nat /\
         forall j, (a <= j < a + k)%nat -> ~ improves sizes x y dx dy j)).
Proof.
  intros Hpos Hne Hdx Hdy.
  induction k as [|k IH]; intros a Ha; simpl.
  - eexists. split; [reflexivity|]. right. split; [reflexivity|]. intros j Hj. lia.
  - destruct (worst_ok sizes x y dx dy a) as (wa & Ea); auto.
    destruct (worst_ok sizes x y dx dy (a + 1)) as (wb & Eb); auto; [lia|].
    rewrite Ea, Eb. simpl.
    destruct (Qlt_bool wa wb) eqn:Elt.
    + exists a. split; [reflexivity|]. left. split; [lia|]. split.
      * exists wa, wb. apply Qlt_bool_iff in Elt. auto.
      * intros j Hj. lia.
    + assert (Hna : ~ improves sizes x y dx dy a).
      { intros (a' & b' & Ea' & Eb' & Hlt).
        rewrite Ea in Ea'. rewrite Eb in Eb'.
        injection Ea' as <-. injection Eb' as <-.
        apply Qlt_bool_false_iff in Elt. lra. }
      destruct (IH (S a)) as (i & Ei & Hcase); [lia|].
      exists i. split; [exact Ei|].
      destruct Hcase as [(Hr & Himp & Hmin)|(-> & Hnone)].
      * left. split; [lia|]. split; [exact Himp|].
        intros j Hj. destruct (Nat.eq_dec j a) as [->|Hja]; [exact Hna|].
        apply Hmin. lia.
      * right. split; [reflexivity|].
        intros j Hj. destruct (Nat.eq_dec j a) as [->|Hja]; [exact Hna|].
        apply Hnone. lia.
Qed.

(** C3: on at least two positive sizes and a positive canvas the split
    search returns the smallest [i >= 1] with [worst(i) < worst(i + 1)],
    and the length minus one when no index has it; [worst] is the largest
    of [max(dx / dy, dy / dx)] over the rectangles [__layout] makes of the
    first [i] sizes, and is defined for every such prefix. *)
Theorem find_split_smallest (sizes : list Q) (x y dx dy : Q) :
  (2 <= List.length sizes)%nat -> positive sizes -> 0 < dx -> 0 < dy ->
  (forall j, (1 <= j <= List.length sizes)%nat ->
             exists w, worst sizes x y dx dy j = Ok w) /\
  exists i,
    find_split sizes x y dx dy = Ok i /\
    (((1 <= i < List.length sizes)%nat /\ improves sizes x y dx dy i /\
      (forall j, (1 <= j < i)%nat -> ~ improves sizes x y dx dy j))
     \/ (i = (List.length sizes - 1)%nat /\
         forall j, (1 <= j < List.length sizes)%nat -> ~ improves sizes x y dx dy j)).
Proof.
  intros Hlen Hpos Hdx Hdy.
  assert (Hne : sizes <> []) by (destruct sizes; [simpl in Hlen; lia|discriminate]).
  split.
  - intros j Hj. apply worst_ok; auto. lia.
  - unfold find_split.
    destruct (find_split_loop_seq sizes x y dx dy Hpos Hne Hdx Hdy
                (List.length sizes - 1) 1) as (i & Ei & Hcase); [lia|].
    exists i. split; [exact Ei|].
    replace (1 + (List.length sizes - 1))%nat with (List.length sizes) in Hcase by lia.
    exact Hcase.
Qed.

Lemma find_split_range (sizes : list Q) (x y dx dy : Q) :
  (2 <= List.length sizes)%nat -> positive sizes -> 0 < dx -> 0 < dy ->
  exists i, find_split sizes x y dx dy = Ok i /\ (1 <= i < List.length sizes)%nat.
Proof.
  intros Hlen Hpos Hdx Hdy.
  assert (Hne : sizes <> []) by (destruct sizes; [simpl in Hlen; lia|discriminate]).
  unfold find_split.
  destruct (find_split_loop_seq sizes x y dx dy Hpos Hne Hdx Hdy
              (List.length sizes - 1) 1) as (i & Ei & Hcase); [lia|].
  exists i. split; [exact Ei|].
  destruct Hcase as [(Hr & _)|(Hi & _)]; lia.
Qed.

(** ** Rescaling and the leftover canvas *)

Lemma rescale_ok (sizes : list Q) (total_area total_size : Q) :
  ~ total_size == 0 ->
  rescale sizes total_area total_size
  = Ok (map (fun s => s * total_area / total_size) sizes).
Proof.
  intros Ht. induction sizes as [|s sizes IH]; simpl; [reflexivity|].
  rewrite py_div_ok by exact Ht. simpl. now rewrite IH.
Qed.

Lemma py_sum_map_scale (sizes : list Q) (a t : Q) :
  ~ t == 0 -> py_sum (map (fun s => s * a / t) sizes) == py_sum sizes * a / t.
Proof.
  intros Ht. induction sizes as [|s sizes IH]; simpl.
  - unfold py_sum. simpl. field. exact Ht.
  - rewrite !py_sum_cons, IH. field. exact Ht.
Qed.

Lemma positive_map_scale (sizes : list Q) (a t : Q) :
  0 < a -> 0 < t -> positive sizes -> positive (map (fun s => s * a / t) sizes).
Proof.
  intros Ha Ht Hpos. apply Forall_map. eapply Forall_impl; [|exact Hpos].
  intros s Hs. simpl. apply Qdiv_pos; [|exact Ht].
  apply Qmult_lt_0_compat; assumption.
Qed.

Lemma Forall2_map_right {A B C : Type} (P : A -> C -> Prop) (f : B -> C)
  (xs : list A) (ys : list B) :
  Forall2 P xs (map f ys) -> Forall2 (fun a b => P a (f b)) xs ys.
Proof.
  revert xs. induction ys as [|b ys IH]; intros xs H; simpl in H; inversion H; subst.
  - constructor.
  - constructor; [assumption|]. now apply IH.
Qed.


Lemma leftover_spec (current : list Q) (x y dx dy : Q) :
  0 < dx -> 0 < dy -> 0 < py_sum current -> py_sum current < dx * dy ->
  exists lx ly ldx ldy,
    leftover current x y dx dy = Ok (lx, ly, ldx, ldy) /\
    0 < ldx /\ 0 < ldy /\ ldx * ldy == dx * dy - py_sum current /\
    x <= lx /\ y <= ly /\ lx + ldx <= x + dx /\ ly + ldy <= y + dy.
Proof.
  intros Hdx Hdy HS Hlt. unfold leftover, leftoverrow, leftovercol.
  destruct (Qle_bool dy dx).
  - rewrite py_div_ok by lra. simpl.
    pose proof (Qdiv_pos _ _ HS Hdy) as Hw.
    assert (py_sum current / dy < dx) as Hwd.
    { apply Qlt_shift_div_r; [exact Hdy|exact Hlt]. }
    do 4 eexists. split; [reflexivity|].
    repeat split; try lra. field. lra.
  - rewrite py_div_ok by lra. simpl.
    pose proof (Qdiv_pos _ _ HS Hdx) as Hh.
    assert (py_sum current / dx < dy) as Hhd.
    { apply Qlt_shift_div_r; [exact Hdx|]. lra. }
    do 4 eexists. split; [reflexivity|].
    repeat split; try lra. field. lra.
Qed.

(** ** The layout engine, before the spacing *)

Lemma squarify_fuel_spec (fuel : nat) :
  forall (sizes : list Q) (x y dx dy : Q),
    (List.length sizes < fuel)%nat -> positive sizes -> 0 < dx -> 0 < dy ->
    exists rects,
      squarify_fuel mkRect fuel sizes x y dx dy = Ok rects /\
      Forall2 (share dx dy (py_sum sizes)) rects sizes /\
      Forall (inside x y dx dy) rects.
Proof.
  induction fuel as [|fuel IH]; intros sizes x y dx dy Hfuel Hpos Hdx Hdy; [lia|].
  simpl. destruct sizes as [|s0 sizes0] eqn:Esizes.
  { exists []. repeat split; constructor. }
  rewrite <- Esizes in *.
  assert (Hne : sizes <> []) by (rewrite Esizes; discriminate).
  replace (List.length sizes =? 0)%nat with false
    by (symmetry; apply Nat.eqb_neq; rewrite Esizes; simpl; lia).
  pose proof (py_sum_pos sizes Hpos Hne) as HT.
  assert (HA : 0 < dx * dy) by (apply Qmult_lt_0_compat; assumption).
  rewrite rescale_ok by lra. simpl.
  set (f := fun s : Q => s * (dx * dy) / py_sum sizes).
  set (sizes' := map f sizes).
  assert (Hpos' : positive sizes') by (apply positive_map_scale; assumption).
  assert (Hsum' : py_sum sizes' == dx * dy).
  { unfold sizes', f. rewrite py_sum_map_scale by lra. field. lra. }
  assert (Hlen' : List.length sizes' = List.length sizes) by apply length_map.
  assert (Hne' : sizes' <> []).
  { intros E. rewrite E in Hlen'. rewrite Esizes in Hlen'. discriminate. }
  destruct (List.length sizes' =? 1)%nat eqn:E1.
  - destruct (layout_unpadded_spec sizes' x y dx dy) as (rects & -> & Ha & _ & Hin); auto.
    exists rects. split; [reflexivity|]. split.
    + apply (Forall2_map_right (fun r s => area r == s) f). exact Ha.
    + apply Hin. lra.
  - apply Nat.eqb_neq in E1.
    assert (Hlen2 : (2 <= List.length sizes')%nat).
    { destruct sizes' as [|? [|? ?]]; simpl in *; try congruence; lia. }
    destruct (find_split_range sizes' x y dx dy Hlen2 Hpos' Hdx Hdy) as (i & -> & Hi).
    simpl. unfold slice_to, slice_from.
    set (current := firstn i sizes'). set (remaining := skipn i sizes').
    assert (Hposc : positive current) by (apply positive_firstn; exact Hpos').
    assert (Hposr : positive remaining) by (apply positive_skipn; exact Hpos').
    assert (Hnec : current <> []) by (apply firstn_nonempty; [lia|exact Hne']).
    assert (Hlenr : List.length remaining = (List.length sizes' - i)%nat)
      by apply length_skipn.
    assert (Hner : remaining <> []).
    { intros E. rewrite E in Hlenr. simpl in Hlenr. lia. }
    pose proof (py_sum_pos current Hposc Hnec) as HSc.
    pose proof (py_sum_pos remaining Hposr Hner) as HSr.
    pose proof (py_sum_split i sizes') as Hsplit. fold current remaining in Hsplit.
    destruct (layout_unpadded_spec current x y dx dy) as (band & -> & Hab & _ & Hinb);
      auto.
    simpl.
    destruct (leftover_spec current x y dx dy) as
      (lx & ly & ldx & ldy & -> & Hldx & Hldy & Hlarea & Hx & Hy & Hxx & Hyy);
      auto; [lra|].
    simpl.
    destruct (IH remaining lx ly ldx ldy) as (rest & -> & Har & Hinr); auto; [lia|].
    simpl. exists (band ++ rest). split; [reflexivity|]. split.
    + apply (Forall2_map_right (fun r s => area r == s) f). fold sizes'.
      rewrite <- (firstn_skipn i sizes'). fold current remaining.
      apply Forall2_app; [exact Hab|].
      eapply Forall2_impl; [|exact Har].
      assert (Hleft : ldx * ldy == py_sum remaining) by lra.
      intros r s Hrs. unfold share in Hrs. simpl. rewrite Hrs, Hleft. field. lra.
    + apply Forall_app. split; [apply Hinb; lra|].
      eapply Forall_impl; [|exact Hinr].
      intros r. apply inside_sub; assumption.
Qed.

Lemma squarify_unpadded_spec (sizes : list Q) (x y dx dy : Q) :
  positive sizes -> 0 < dx -> 0 < dy ->
  exists raws,
    squarify_unpadded sizes x y dx dy = Ok raws /\
    squarify sizes x y dx dy = Ok (map pad raws) /\
    Forall2 (share dx dy (py_sum sizes)) raws sizes /\
    Forall (inside x y dx dy) raws.
Proof.
  intros Hpos Hdx Hdy.
  destruct (squarify_fuel_spec (S (List.length sizes)) sizes x y dx dy)
    as (raws & E & Hshare & Hin); auto.
  exists raws. rewrite squarify_pad. unfold squarify_unpadded, squarify_with.
  rewrite E. repeat split; assumption.
Qed.








Lemma find_split_smallest_witness :
  ((2 <= List.length [3750; 750])%nat /\ positive [3750; 750] /\ 0 < 90 /\ 0 < 50) /\
  find_split [3750; 750] 0 0 90 50 = Ok 1%nat.
Proof.
  assert (H : (2 <= List.length [3750; 750])%nat /\ positive [3750; 750]
              /\ 0 < 90 /\ 0 < 50).
  { split; [simpl; lia|]. split; [repeat constructor|]. split; reflexivity. }
  split; [exact H|].
  destruct H as (H1 & H2 & H3 & H4).
  destruct (find_split_smallest [3750; 750] 0 0 90 50 H1 H2 H3 H4)
    as (_ & i & Ei & Hcase).
  rewrite Ei. f_equal. simpl in Hcase. destruct Hcase as [(Hr & _)|(Hi & _)]; lia.
Defined.

(** C4: [__squarify([5, 1], 0, 0, 90, 50)] returns exactly two rectangles,
    [(x=1, y=1, dx=73, dy=48)] and [(x=76, y=1, dx=13, dy=48)], the spacing
    of 1px included. *)
Theorem squarify_reference_layout :
  exists r1 r2,
    squarify [5; 1] 0 0 90 50 = Ok [r1; r2] /\
    Rect_eq r1 (mkRect 1 1 73 48) /\
    Rect_eq r2 (mkRect 76 1 13 48).
Proof.
  do 2 eexists. split; [vm_compute; reflexivity|].
  split; repeat split; reflexivity.
Qed.

(** ** Data shaping *)

Lemma Qlt_bool_compat (a b c : Q) : b == c -> Qlt_bool a b = Qlt_bool a c.
Proof.
  intros E. destruct (Qlt_bool a c) eqn:Ec.
  - apply Qlt_bool_iff. apply Qlt_bool_iff in Ec. lra.
  - apply Qlt_bool_false_iff. apply Qlt_bool_false_iff in Ec. lra.
Qed.

Lemma sum_items_spec (items : list (string * value)) :
  forall (color : option string) (acc : Q),
    fst (sum_items items color acc)
    = match color with Some c => Some c | None => first_positive_key items end /\
    snd (sum_items items color acc) == acc + numeric_sum items.
Proof.
  induction items as [|[k v] items IH]; intros color acc; simpl.
  - split; [now destruct color|lra].
  - destruct (as_number v) as [n|].
    + destruct (IH (match color with
                    | None => if Qlt_bool 0 n then Some k else None
                    | Some c => Some c
                    end) (acc + n)) as [-> ->].
      split; [|lra].
      destruct color; [reflexivity|]. now destruct (Qlt_bool 0 n).
    + apply IH.
Qed.

Lemma shape_items_spec (items : list (string * value)) :
  forall (values : list Q) (labels color_keys : list string),
  exists vs ls cs,
    shape_items items values labels color_keys
    = (values ++ vs, labels ++ ls, color_keys ++ cs) /\
    ls = map fst (filter retained items) /\
    Forall2 weight_of vs (filter retained items) /\
    Forall2 color_of cs (filter retained items).
Proof.
  induction items as [|[key val] items IH]; intros values labels color_keys.
  - exists [], [], []. simpl. rewrite !app_nil_r. repeat split; constructor.
  - assert (Hskip : retained (key, val) = false ->
        shape_items ((key, val) :: items) values labels color_keys
        = shape_items items values labels color_keys ->
        exists vs ls cs,
          shape_items ((key, val) :: items) values labels color_keys
          = (values ++ vs, labels ++ ls, color_keys ++ cs) /\
          ls = map fst (filter retained ((key, val) :: items)) /\
          Forall2 weight_of vs (filter retained ((key, val) :: items)) /\
          Forall2 color_of cs (filter retained ((key, val) :: items))).
    { intros Hr Hs. rewrite Hs. cbn [filter]. rewrite Hr. apply IH. }
    destruct val as [| | | | |sub]; try (apply Hskip; reflexivity).
    destruct (sum_items_spec sub None 0) as [Hc Hs].
    assert (Hlt : Qlt_bool 0 (snd (sum_items sub None 0)) = Qlt_bool 0 (numeric_sum sub)).
    { apply Qlt_bool_compat. rewrite Hs. lra. }
    assert (Hstep :
        shape_items ((key, VDict sub) :: items) values labels color_keys
        = match fst (sum_items sub None 0) with
          | Some c =>
              if Qlt_bool 0 (snd (sum_items sub None 0))
              then shape_items items (values ++ [snd (sum_items sub None 0)])
                     (labels ++ [key]) (color_keys ++ [c])
              else shape_items items values labels color_keys
          | None => shape_items items values labels color_keys
          end).
    { cbn [shape_items]. destruct (sum_items sub None 0); reflexivity. }
    set (val_sum := snd (sum_items sub None 0)) in *.
    destruct (first_positive_key sub) as [c|] eqn:Efk.
    + destruct (Qlt_bool 0 (numeric_sum sub)) eqn:Epos.
      * assert (Hret : retained (key, VDict sub) = true).
        { unfold retained. simpl. now rewrite Efk. }
        rewrite Hstep, Hc, Hlt.
        destruct (IH (values ++ [val_sum]) (labels ++ [key]) (color_keys ++ [c]))
          as (vs & ls & cs & -> & Hls & Hvs & Hcs).
        exists (val_sum :: vs), (key :: ls), (c :: cs).
        rewrite <- !app_assoc. cbn [filter app]. rewrite Hret. cbn [map fst].
        split; [reflexivity|]. split; [now rewrite Hls|].
        split; constructor; try assumption.
        -- exists sub. split; [reflexivity|]. split; [lra|].
           apply Qlt_bool_iff. now rewrite Hlt.
        -- exists sub. split; [reflexivity|]. exact Efk.
      * apply Hskip; [|rewrite Hstep, Hc, Hlt; reflexivity].
        unfold retained. simpl. now rewrite Efk.
    + apply Hskip; [|rewrite Hstep, Hc; reflexivity].
      unfold retained. simpl. now rewrite Efk.
Qed.

(** C5, as the code has it: the entries of the three sequences are those
    of the kept outer keys, in order; the weight of a key is the sum of
    all the numeric values of its sub-mapping, the negative ones
    reducing it, and is strictly positive; its colour key is the first
    sub-key whose numeric value is strictly positive. *)
Theorem shaping_weights_and_colors (items : list (string * value)) :
  let '(values, labels, color_keys) := transform_to_tree_data (VDict items) in
  labels = map fst (filter retained items) /\
  Forall2 weight_of values (filter retained items) /\
  Forall2 color_of color_keys (filter retained items).
Proof.
  simpl.
  destruct (shape_items_spec items [] [] []) as (vs & ls & cs & -> & H).
  exact H.
Qed.

(** C5, as stated, fails on a sub-mapping with a negative value: the
    entry [{"host1": {"high": 5, "low": -2}}] is kept with weight [3],
    while its positive values add up to [5]. *)
Lemma weights_are_positive_sums_counterexample :
  ~ weights_are_positive_sums
      [("host1"%string, VDict [("high"%string, VNum 5); ("low"%string, VNum (-2))])].
Proof.
  unfold weights_are_positive_sums. simpl.
  intros H. inversion H as [|w kv ws kvs (sub & Esub & Ew) _]; subst.
  simpl in Esub. injection Esub as <-.
  vm_compute in Ew. discriminate.
Qed.

(** ** Rendering *)

Lemma render_loop_spec (fontsize : Q) (border_color : string)
  (title_color : list (string * string)) (label color_keys : list string)
  (rects : list Rect) :
  forall (i : nat) (elements out : list Element),
    render_loop rects i label color_keys fontsize border_color title_color elements
    = Ok out ->
    exists new,
      out = elements ++ new /\
      map e_height new = map rdy rects /\
      Forall (suppressed fontsize) new.
Proof.
  induction rects as [|d rects IH]; intros i elements out; simpl.
  - intros [= <-]. exists []. rewrite app_nil_r. repeat split. constructor.
  - destruct (py_index label i) as [l|e]; simpl; [|discriminate].
    destruct (py_div (rdx d) (len l * fontsize)) as [q|e]; simpl; [|discriminate].
    destruct (py_index color_keys i) as [k|e]; simpl; [|discriminate].
    intros H. apply IH in H. destruct H as (new & -> & Hh & Hs).
    eexists (_ :: new). rewrite <- app_assoc. split; [reflexivity|].
    split; [simpl; now rewrite Hh|].
    constructor; [|exact Hs].
    unfold suppressed. simpl. intros Hle.
    apply Qle_bool_iff in Hle. rewrite Hle. now destruct l.
Qed.

(** C7: in the markup that [treemap] returns, the groups carry the heights
    of the padded rectangles of the layout, and every group whose height
    is at most the font size has an empty label. *)
Theorem label_suppression (colors : list (string * string)) (data : value)
  (width height fontsize : Q) (border_color : string)
  (title_color : option (list (string * string))) (doc : Svg) :
  treemap colors data width height fontsize border_color title_color = Ok doc ->
  (exists rects,
     squarify (fst (fst (transform_to_tree_data data))) 0 0 width height = Ok rects /\
     map e_height (svg_rects doc) = map rdy rects) /\
  Forall (fun e => e_height e <= fontsize -> e_label e = EmptyString) (svg_rects doc).
Proof.
  unfold treemap.
  destruct (transform_to_tree_data data) as [[sizes label] color_keys]. simpl.
  destruct (squarify sizes 0 0 width height) as [rects|e]; simpl; [|discriminate].
  match goal with
  | |- context [render_loop rects 0 label color_keys fontsize border_color ?tc []] =>
      destruct (render_loop rects 0 label color_keys fontsize border_color tc [])
        as [out|e] eqn:E
  end; simpl; [|discriminate].
  intros [= <-]. simpl.
  apply render_loop_spec in E. destruct E as (new & -> & Hh & Hs). simpl.
  split; [exists rects; split; [reflexivity|exact Hh]|exact Hs].
Qed.

Lemma label_suppression_witness :
  exists doc,
    treemap [] flat_hosts 1024 10 11 "#ffffff"%string None = Ok doc /\
    Forall (fun e => e_height e <= 11 -> e_label e = EmptyString) (svg_rects doc).
Proof.
  eexists. split; [vm_compute; reflexivity|].
  refine (proj2 (label_suppression [] flat_hosts 1024 10 11 "#ffffff"%string None _ _)).
  vm_compute. reflexivity.
Defined.

(** C8: for an input that is not a mapping, and for the empty mapping, the
    shaping returns three empty sequences and [treemap] returns, without
    error, a document of the requested width and height with no group. *)
Theorem empty_input (colors : list (string * string)) (data : value)
  (width height fontsize : Q) (border_color : string)
  (title_color : option (list (string * string))) :
  is_mapping data = false \/ data = VDict [] ->
  transform_to_tree_data data = ([], [], []) /\
  treemap colors data width height fontsize border_color title_color
  = Ok (mkSvg width height []).
Proof.
  intros [H| ->].
  - destruct data; try discriminate; split; reflexivity.
  - split; reflexivity.
Qed.

Lemma empty_input_witness :
  (is_mapping (VNum 12) = false \/ VNum 12 = VDict []) /\
  transform_to_tree_data (VNum 12) = ([], [], []) /\
  treemap [] (VNum 12) 1024 768 11 "#ffffff"%string None = Ok (mkSvg 1024 768 []).
Proof.
  assert (H : is_mapping (VNum 12) = false \/ VNum 12 = VDict [])
    by (left; reflexivity).
  split; [exact H|].
  exact (empty_input [] (VNum 12) 1024 768 11 "#ffffff"%string None H).
Defined.

(** ** Totality of [treemap] away from empty labels *)




(** ** The examples of the docstrings *)

Example find_split_doctest :
  find_split [2045.5; 1227.3; 818.2; 409.0] 0 0 90 50 = Ok 1%nat.
Proof. vm_compute. reflexivity. Qed.

Example transform_hosts_doctest :
  transform_to_tree_data
    (VDict [("host1"%string,
             VDict [("high"%string, VNum 12); ("medium"%string, VNum 4);
                    ("low"%string, VNum 0)]);
            ("host2"%string,
             VDict [("high"%string, VNum 0); ("medium"%string, VNum 4);
                    ("low"%string, VNum 0)])])
  = ([0 + 12 + 4 + 0; 0 + 0 + 4 + 0],
     ["host1"%string; "host2"%string], ["high"%string; "medium"%string]).
Proof. reflexivity. Qed.

Example transform_strings_doctest :
  transform_to_tree_data
    (VDict [("k"%string, VStr "hello"); ("v"%string, VStr "world")])
  = ([], [], []).
Proof. reflexivity. Qed.

Example transform_number_doctest :
  transform_to_tree_data (VNum 12) = ([], [], []).
Proof. reflexivity. Qed.

(** C9 fails on a kept entry whose key is the empty string: the width of
    the label in pixels is then [0], and the division by it raises. *)
Theorem treemap_empty_label_raises (colors : list (string * string)) :
  treemap colors (VDict [(EmptyString, VDict [("high"%string, VNum 1)])])
    1024 768 11 "#ffffff"%string None
  = Raise ZeroDivisionError.
Proof. vm_compute. reflexivity. Qed.

(** * Further properties of the layout engine *)

(** ** A single weight, and degenerate canvases *)

Lemma py_div_zero (a b : Q) : b == 0 -> py_div a b = Raise ZeroDivisionError.
Proof.
  intros Hb. unfold py_div. apply Qeq_bool_iff in Hb. now rewrite Hb.
Qed.

Lemma Qlt_bool_compat_l (a b c : Q) : a == b -> Qlt_bool a c = Qlt_bool b c.
Proof.
  intros E. destruct (Qlt_bool b c) eqn:Ec.
  - apply Qlt_bool_iff. apply Qlt_bool_iff in Ec. lra.
  - apply Qlt_bool_false_iff. apply Qlt_bool_false_iff in Ec. lra.
Qed.




Lemma py_sum_zeros (zs : list Q) : Forall (fun z => z == 0) zs -> py_sum zs == 0.
Proof.
  induction 1 as [|z zs Hz _ IH].
  - reflexivity.
  - rewrite py_sum_cons, Hz, IH. lra.
Qed.

(** A band of sizes that are all zero cannot be laid out on a canvas
    without area. *)
Lemma layout_zero_raises (mk : Q -> Q -> Q -> Q -> Rect) (zs : list Q)
  (x y dx dy : Q) :
  zs <> [] -> Forall (fun z => z == 0) zs -> dx * dy == 0 ->
  layout_with mk zs x y dx dy = Raise ZeroDivisionError.
Proof.
  intros Hne Hz HA. pose proof (py_sum_zeros zs Hz) as HS.
  unfold layout_with, layoutrow_with, layoutcol_with.
  destruct zs as [|z zs]; [congruence|].
  destruct (Qle_bool dy dx).
  - destruct (Qeq_dec dy 0) as [E|E]; [now rewrite py_div_zero|].
    rewrite py_div_ok by exact E. simpl.
    rewrite py_div_zero; [reflexivity|]. rewrite HS. field. exact E.
  - destruct (Qeq_dec dx 0) as [E|E]; [now rewrite py_div_zero|].
    rewrite py_div_ok by exact E. simpl.
    rewrite py_div_zero; [reflexivity|]. rewrite HS. field. exact E.
Qed.

Lemma squarify_degenerate (sizes : list Q) (x y dx dy : Q) :
  sizes <> [] -> dx * dy == 0 \/ py_sum sizes == 0 ->
  squarify sizes x y dx dy = Raise ZeroDivisionError.
Proof.
  intros Hne Hdeg. unfold squarify, squarify_with. cbn [squarify_fuel].
  destruct sizes as [|s0 sizes0] eqn:Es; [congruence|]. rewrite <- Es in *.
  replace (List.length sizes =? 0)%nat with false by (now rewrite Es).
  destruct (Qeq_dec (py_sum sizes) 0) as [HT|HT].
  { rewrite Es at 1. cbn [rescale]. now rewrite py_div_zero. }
  destruct Hdeg as [HA|HT']; [|contradiction].
  rewrite rescale_ok by exact HT. cbn [bind].
  set (sizes' := map (fun s => s * (dx * dy) / py_sum sizes) sizes).
  assert (Hz : Forall (fun z => z == 0) sizes').
  { apply Forall_map, Forall_forall. intros s _. simpl. rewrite HA. field. exact HT. }
  assert (Hne' : sizes' <> []) by (unfold sizes'; rewrite Es; discriminate).
  destruct (List.length sizes' =? 1)%nat eqn:E1.
  - now apply layout_zero_raises.
  - assert (Hlen : exists n, (List.length sizes' - 1 = S n)%nat).
    { apply Nat.eqb_neq in E1. exists (List.length sizes' - 2)%nat.
      destruct (List.length sizes') as [|[|n]] eqn:El; try lia.
      apply length_zero_iff_nil in El. contradiction. }
    destruct Hlen as (n & Hn).
    unfold find_split. rewrite Hn. cbn [seq find_split_loop].
    unfold worst at 1, layout, slice_to.
    rewrite layout_zero_raises; [reflexivity| | |exact HA].
    + apply firstn_nonempty; [lia|exact Hne'].
    + apply Forall_forall. intros z Hin. eapply Forall_forall in Hz; [exact Hz|].
      rewrite <- (firstn_skipn 1 sizes'). apply in_or_app. now left.
Qed.

(** On a canvas without area, or with weights that add up to zero, the
    layout of a non-empty sequence raises [ZeroDivisionError]. *)
Theorem squarify_degenerate_raises (sizes : list Q) (x y dx dy : Q) :
  sizes <> [] -> dx * dy == 0 \/ py_sum sizes == 0 ->
  squarify sizes x y dx dy = Raise ZeroDivisionError.
Proof. apply squarify_degenerate. Qed.

Lemma squarify_degenerate_raises_witness :
  ([5; 1] <> [] /\ (90 * 0 == 0 \/ py_sum [5; 1] == 0)) /\
  squarify [5; 1] 0 0 90 0 = Raise ZeroDivisionError.
Proof.
  assert (H : [5; 1] <> [] /\ (90 * 0 == 0 \/ py_sum [5; 1] == 0)).
  { split; [discriminate|left; reflexivity]. }
  split; [exact H|].
  destruct H as (H1 & H2).
  exact (squarify_degenerate_raises [5; 1] 0 0 90 0 H1 H2).
Defined.

(** ** Termination and the errors of a run *)

Lemma find_split_loop_in (sizes : list Q) (x y dx dy : Q) (cs : list nat) (i : nat) :
  find_split_loop sizes x y dx dy cs = Ok i ->
  In i cs \/ i = (List.length sizes - 1)%nat.
Proof.
  induction cs as [|c cs IH]; simpl.
  - intros [= <-]. now right.
  - destruct (worst sizes x y dx dy c) as [a|e]; simpl; [|discriminate].
    destruct (worst sizes x y dx dy (c + 1)) as [b|e]; simpl; [|discriminate].
    destruct (Qlt_bool a b).
    + intros [= <-]. left. now left.
    + intros H. destruct (IH H) as [Hin| ->]; [left; now right|now right].
Qed.

(** Whatever the sizes are, a split index that is returned leaves at
    least one size on each side. *)
Lemma find_split_bounds (sizes : list Q) (x y dx dy : Q) (i : nat) :
  (2 <= List.length sizes)%nat ->
  find_split sizes x y dx dy = Ok i -> (1 <= i < List.length sizes)%nat.
Proof.
  intros Hlen H. apply find_split_loop_in in H. destruct H as [Hin| ->]; [|lia].
  apply in_seq in Hin. lia.
Qed.

Lemma rescale_length (sizes sizes' : list Q) (a t : Q) :
  rescale sizes a t = Ok sizes' -> List.length sizes' = List.length sizes.
Proof.
  revert sizes'. induction sizes as [|s sizes IH]; intros sizes'; simpl.
  - now intros [= <-].
  - destruct (py_div (s * a) t); simpl; [|discriminate].
    destruct (rescale sizes a t) as [ss|]; simpl; [|discriminate].
    intros [= <-]. simpl. now rewrite (IH ss).
Qed.




Lemma div_only_bind {A B : Type} (m : result A) (k : A -> result B) :
  div_only m -> (forall a, m = Ok a -> div_only (k a)) -> div_only (bind m k).
Proof.
  destruct m as [a|e]; simpl; intros Hm Hk; [now apply Hk|exact Hm].
Qed.

Lemma py_div_div_only (a b : Q) : div_only (py_div a b).
Proof. unfold py_div. now destruct (Qeq_bool b 0). Qed.

Lemma layoutrow_loop_shape (mk : Q -> Q -> Q -> Q -> Rect) (sizes : list Q) :
  forall (x y width : Q),
    match layoutrow_loop mk sizes x y width with
    | Ok rects => List.length rects = List.length sizes
    | Raise e => e = ZeroDivisionError
    end.
Proof.
  induction sizes as [|s sizes IH]; intros x y width; simpl; [reflexivity|].
  pose proof (py_div_div_only s width) as Hd.
  destruct (py_div s width) as [h|e]; simpl; [|exact Hd].
  specialize (IH x (y + h) width).
  destruct (layoutrow_loop mk sizes x (y + h) width); simpl; [now rewrite IH|exact IH].
Qed.

Lemma layoutcol_loop_shape (mk : Q -> Q -> Q -> Q -> Rect) (sizes : list Q) :
  forall (x y height : Q),
    match layoutcol_loop mk sizes x y height with
    | Ok rects => List.length rects = List.length sizes
    | Raise e => e = ZeroDivisionError
    end.
Proof.
  induction sizes as [|s sizes IH]; intros x y height; simpl; [reflexivity|].
  pose proof (py_div_div_only s height) as Hd.
  destruct (py_div s height) as [w|e]; simpl; [|exact Hd].
  specialize (IH (x + w) y height).
  destruct (layoutcol_loop mk sizes (x + w) y height); simpl; [now rewrite IH|exact IH].
Qed.

(** A band has one rectangle per size, and only a division can fail. *)
Lemma layout_shape (mk : Q -> Q -> Q -> Q -> Rect) (sizes : list Q) (x y dx dy : Q) :
  match layout_with mk sizes x y dx dy with
  | Ok rects => List.length rects = List.length sizes
  | Raise e => e = ZeroDivisionError
  end.
Proof.
  unfold layout_with, layoutrow_with, layoutcol_with.
  destruct (Qle_bool dy dx).
  - pose proof (py_div_div_only (py_sum sizes) dy) as Hd.
    destruct (py_div (py_sum sizes) dy); simpl; [apply layoutrow_loop_shape|exact Hd].
  - pose proof (py_div_div_only (py_sum sizes) dx) as Hd.
    destruct (py_div (py_sum sizes) dx); simpl; [apply layoutcol_loop_shape|exact Hd].
Qed.

Lemma ratios_shape (rects : list Rect) :
  match ratios rects with
  | Ok qs => List.length qs = List.length rects
  | Raise e => e = ZeroDivisionError
  end.
Proof.
  induction rects as [|r rects IH]; simpl; [reflexivity|].
  pose proof (py_div_div_only (rdx r) (rdy r)) as Ha.
  destruct (py_div (rdx r) (rdy r)); simpl; [|exact Ha].
  pose proof (py_div_div_only (rdy r) (rdx r)) as Hb.
  destruct (py_div (rdy r) (rdx r)); simpl; [|exact Hb].
  destruct (ratios rects); simpl; [now rewrite IH|exact IH].
Qed.

Lemma worst_div_only (sizes : list Q) (x y dx dy : Q) (i : nat) :
  sizes <> [] -> (1 <= i)%nat -> div_only (worst sizes x y dx dy i).
Proof.
  intros Hne Hi. unfold worst, layout.
  pose proof (layout_shape create_rectangle (slice_to i sizes) x y dx dy) as Hl.
  destruct (layout_with create_rectangle (slice_to i sizes) x y dx dy) as [rects|e];
    simpl; [|exact Hl].
  pose proof (ratios_shape rects) as Hr.
  destruct (ratios rects) as [qs|e]; simpl; [|exact Hr].
  destruct qs as [|q qs]; simpl; [|exact I].
  exfalso. simpl in Hr. rewrite <- Hr in Hl. symmetry in Hl.
  apply length_zero_iff_nil in Hl. revert Hl. now apply firstn_nonempty.
Qed.

Lemma find_split_loop_div_only (sizes : list Q) (x y dx dy : Q) (cs : list nat) :
  sizes <> [] -> Forall (fun c => (1 <= c)%nat) cs ->
  div_only (find_split_loop sizes x y dx dy cs).
Proof.
  intros Hne. induction 1 as [|c cs Hc _ IH]; simpl; [exact I|].
  apply div_only_bind; [now apply worst_div_only|]. intros a _.
  apply div_only_bind; [apply worst_div_only; [exact Hne|lia]|]. intros b _.
  destruct (Qlt_bool a b); [exact I|exact IH].
Qed.

Lemma find_split_div_only (sizes : list Q) (x y dx dy : Q) :
  sizes <> [] -> div_only (find_split sizes x y dx dy).
Proof.
  intros Hne. apply find_split_loop_div_only; [exact Hne|].
  apply Forall_forall. intros c Hc. apply in_seq in Hc. lia.
Qed.

Lemma rescale_div_only (sizes : list Q) (a t : Q) : div_only (rescale sizes a t).
Proof.
  induction sizes as [|s sizes IH]; simpl; [exact I|].
  apply div_only_bind; [apply py_div_div_only|]. intros q _.
  apply div_only_bind; [exact IH|]. intros ss _. exact I.
Qed.

Lemma leftover_div_only (sizes : list Q) (x y dx dy : Q) :
  div_only (leftover sizes x y dx dy).
Proof.
  unfold leftover, leftoverrow, leftovercol.
  destruct (Qle_bool dy dx);
    (apply div_only_bind; [apply py_div_div_only|]); intros w _; exact I.
Qed.

Lemma layout_div_only (mk : Q -> Q -> Q -> Q -> Rect) (sizes : list Q) (x y dx dy : Q) :
  div_only (layout_with mk sizes x y dx dy).
Proof.
  pose proof (layout_shape mk sizes x y dx dy) as H.
  destruct (layout_with mk sizes x y dx dy); simpl; [exact I|exact H].
Qed.

Lemma squarify_fuel_div_only (mk : Q -> Q -> Q -> Q -> Rect) (fuel : nat) :
  forall (sizes : list Q) (x y dx dy : Q),
    (List.length sizes < fuel)%nat -> div_only (squarify_fuel mk fuel sizes x y dx dy).
Proof.
  induction fuel as [|fuel IH]; intros sizes x y dx dy Hf; [lia|].
  cbn [squarify_fuel].
  destruct (List.length sizes =? 0)%nat eqn:E0; [exact I|].
  apply div_only_bind; [apply rescale_div_only|]. intros sizes' Er.
  apply rescale_length in Er.
  destruct (List.length sizes' =? 1)%nat eqn:E1; [apply layout_div_only|].
  apply Nat.eqb_neq in E0, E1.
  assert (Hne' : sizes' <> []).
  { intros ->. simpl in Er. lia. }
  apply div_only_bind; [now apply find_split_div_only|]. intros i Ei.
  apply find_split_bounds in Ei; [|lia].
  apply div_only_bind; [apply layout_div_only|]. intros band _.
  apply div_only_bind; [apply leftover_div_only|]. intros [[[lx ly] ldx] ldy] _.
  apply div_only_bind; [|intros rest _; exact I].
  apply IH. unfold slice_from. rewrite length_skipn. lia.
Qed.

Lemma squarify_fuel_length (mk : Q -> Q -> Q -> Q -> Rect) (fuel : nat) :
  forall (sizes : list Q) (x y dx dy : Q) (rects : list Rect),
    squarify_fuel mk fuel sizes x y dx dy = Ok rects ->
    List.length rects = List.length sizes.
Proof.
  induction fuel as [|fuel IH]; intros sizes x y dx dy rects; [discriminate|].
  cbn [squarify_fuel].
  destruct (List.length sizes =? 0)%nat eqn:E0.
  { intros [= <-]. apply Nat.eqb_eq in E0. now rewrite E0. }
  destruct (rescale sizes (dx * dy) (py_sum sizes)) as [sizes'|] eqn:Er;
    cbn [bind]; [|discriminate].
  apply rescale_length in Er. rewrite <- Er.
  destruct (List.length sizes' =? 1)%nat.
  { intros H. pose proof (layout_shape mk sizes' x y dx dy) as Hs.
    now rewrite H in Hs. }
  destruct (find_split sizes' x y dx dy) as [i|]; cbn [bind]; [|discriminate].
  pose proof (layout_shape mk (slice_to i sizes') x y dx dy) as Hs.
  destruct (layout_with mk (slice_to i sizes') x y dx dy) as [band|];
    cbn [bind]; [|discriminate].
  destruct (leftover (slice_to i sizes') x y dx dy) as [[[[lx ly] ldx] ldy]|];
    cbn [bind]; [|discriminate].
  destruct (squarify_fuel mk fuel (slice_from i sizes') lx ly ldx ldy) as [rest|] eqn:E;
    cbn [bind]; [|discriminate].
  intros [= <-]. apply IH in E.
  rewrite length_app, Hs, E. unfold slice_to, slice_from.
  rewrite <- (firstn_skipn i sizes') at 3. now rewrite length_app.
Qed.

Lemma squarify_outcome (sizes : list Q) (x y dx dy : Q) :
  (exists rects, squarify sizes x y dx dy = Ok rects /\
                 List.length rects = List.length sizes) \/
  squarify sizes x y dx dy = Raise ZeroDivisionError.
Proof.
  pose proof (squarify_fuel_div_only create_rectangle (S (List.length sizes))
                sizes x y dx dy (Nat.lt_succ_diag_r _)) as H.
  unfold squarify, squarify_with.
  destruct (squarify_fuel create_rectangle (S (List.length sizes)) sizes x y dx dy)
    as [rects|e] eqn:E; simpl in H; [left|right; now rewrite H].
  exists rects. split; [reflexivity|]. now apply squarify_fuel_length in E.
Qed.

(** Whatever the sizes and the canvas, the layout engine either returns
    one rectangle per size or raises [ZeroDivisionError]: [max] never
    sees an empty list and the recursion never runs away. *)
Theorem squarify_only_division_error (sizes : list Q) (x y dx dy : Q) :
  (exists rects, squarify sizes x y dx dy = Ok rects /\
                 List.length rects = List.length sizes) \/
  squarify sizes x y dx dy = Raise ZeroDivisionError.
Proof. apply squarify_outcome. Qed.

(** ** The bands of a run *)







(** ** No two rectangles overlap *)












(** ** The geometry of one band *)

Lemma layoutrow_loop_chain (sizes : list Q) (x width : Q) :
  ~ width == 0 ->
  forall (y : Q),
  exists rects,
    layoutrow_loop mkRect sizes x y width = Ok rects /\
    Forall (fun r => rx r = x /\ rdx r = width) rects /\
    chained ry rdy y rects /\
    py_sum (map rdy rects) == py_sum sizes / width.
Proof.
  intros Hw. induction sizes as [|s sizes IH]; intros y; simpl.
  - exists []. repeat split; constructor.
  - rewrite py_div_ok by exact Hw. cbn [bind].
    destruct (IH (y + s / width)) as (rects & -> & Hx & Hc & Hs). cbn [bind].
    eexists. split; [reflexivity|]. split; [|split].
    + constructor; [split; reflexivity|exact Hx].
    + simpl. split; [reflexivity|exact Hc].
    + simpl. rewrite !py_sum_cons, Hs. field. exact Hw.
Qed.

Lemma layoutcol_loop_chain (sizes : list Q) (y height : Q) :
  ~ height == 0 ->
  forall (x : Q),
  exists rects,
    layoutcol_loop mkRect sizes x y height = Ok rects /\
    Forall (fun r => ry r = y /\ rdy r = height) rects /\
    chained rx rdx x rects /\
    py_sum (map rdx rects) == py_sum sizes / height.
Proof.
  intros Hh. induction sizes as [|s sizes IH]; intros x; simpl.
  - exists []. repeat split; constructor.
  - rewrite py_div_ok by exact Hh. cbn [bind].
    destruct (IH (x + s / height)) as (rects & -> & Hy & Hc & Hs). cbn [bind].
    eexists. split; [reflexivity|]. split; [|split].
    + constructor; [split; reflexivity|exact Hy].
    + simpl. split; [reflexivity|exact Hc].
    + simpl. rewrite !py_sum_cons, Hs. field. exact Hh.
Qed.

(** On a canvas at least as wide as high, a band is a strip at the left
    edge of the canvas: before the spacing, its rectangles all start at
    [x] and have the width [sum(sizes) / dy], each starts at the [y]
    where the one before it ends, the first at the [y] of the canvas,
    and their heights add up to [dy]. *)
Theorem layout_wide_canvas_strip (sizes : list Q) (x y dx dy : Q) :
  dy <= dx -> ~ dy == 0 -> ~ py_sum sizes == 0 ->
  exists band,
    layout_with mkRect sizes x y dx dy = Ok band /\
    layout sizes x y dx dy = Ok (map pad band) /\
    Forall (fun r => rx r = x /\ rdx r = py_sum sizes / dy) band /\
    chained ry rdy y band /\
    py_sum (map rdy band) == dy.
Proof.
  intros Hle Hdy HS.
  assert (Hw : ~ py_sum sizes / dy == 0).
  { intros E. apply HS.
    assert (E' : py_sum sizes == py_sum sizes / dy * dy) by (field; exact Hdy).
    rewrite E', E. lra. }
  assert (E : layout_with mkRect sizes x y dx dy
              = layoutrow_loop mkRect sizes x y (py_sum sizes / dy)).
  { unfold layout_with, layoutrow_with. apply Qle_bool_iff in Hle. rewrite Hle.
    now rewrite py_div_ok by exact Hdy. }
  destruct (layoutrow_loop_chain sizes x _ Hw y) as (band & El & Hx & Hc & Hs).
  exists band. rewrite layout_pad, E, El.
  repeat split; try assumption. rewrite Hs. field. split; assumption.
Qed.

Lemma layout_wide_canvas_strip_witness :
  (50 <= 90 /\ ~ 50 == 0 /\ ~ py_sum [3750; 750] == 0) /\
  exists band,
    layout_with mkRect [3750; 750] 0 0 90 50 = Ok band /\
    layout [3750; 750] 0 0 90 50 = Ok (map pad band) /\
    Forall (fun r => rx r = 0 /\ rdx r = py_sum [3750; 750] / 50) band /\
    chained ry rdy 0 band /\
    py_sum (map rdy band) == 50.
Proof.
  assert (H : 50 <= 90 /\ ~ 50 == 0 /\ ~ py_sum [3750; 750] == 0).
  { repeat split; discriminate. }
  split; [exact H|].
  destruct H as (H1 & H2 & H3).
  exact (layout_wide_canvas_strip [3750; 750] 0 0 90 50 H1 H2 H3).
Defined.

(** On a canvas higher than wide, a band is a strip at the top edge of
    the canvas: before the spacing, its rectangles all start at [y] and
    have the height [sum(sizes) / dx], each starts at the [x] where the
    one before it ends, the first at the [x] of the canvas, and their
    widths add up to [dx]. *)
Theorem layout_high_canvas_strip (sizes : list Q) (x y dx dy : Q) :
  dx < dy -> ~ dx == 0 -> ~ py_sum sizes == 0 ->
  exists band,
    layout_with mkRect sizes x y dx dy = Ok band /\
    layout sizes x y dx dy = Ok (map pad band) /\
    Forall (fun r => ry r = y /\ rdy r = py_sum sizes / dx) band /\
    chained rx rdx x band /\
    py_sum (map rdx band) == dx.
Proof.
  intros Hlt Hdx HS.
  assert (Hh : ~ py_sum sizes / dx == 0).
  { intros E. apply HS.
    assert (E' : py_sum sizes == py_sum sizes / dx * dx) by (field; exact Hdx).
    rewrite E', E. lra. }
  assert (E : layout_with mkRect sizes x y dx dy
              = layoutcol_loop mkRect sizes x y (py_sum sizes / dx)).
  { unfold layout_with, layoutcol_with.
    replace (Qle_bool dy dx) with false
      by (symmetry; apply Qlt_bool_iff in Hlt; unfold Qlt_bool in Hlt;
          now apply negb_true_iff in Hlt).
    now rewrite py_div_ok by exact Hdx. }
  destruct (layoutcol_loop_chain sizes y _ Hh x) as (band & El & Hy & Hc & Hs).
  exists band. rewrite layout_pad, E, El.
  repeat split; try assumption. rewrite Hs. field. split; assumption.
Qed.

Lemma layout_high_canvas_strip_witness :
  (15 < 50 /\ ~ 15 == 0 /\ ~ py_sum [500; 250] == 0) /\
  exists band,
    layout_with mkRect [500; 250] 75 0 15 50 = Ok band /\
    layout [500; 250] 75 0 15 50 = Ok (map pad band) /\
    Forall (fun r => ry r = 0 /\ rdy r = py_sum [500; 250] / 15) band /\
    chained rx rdx 75 band /\
    py_sum (map rdx band) == 15.
Proof.
  assert (H : 15 < 50 /\ ~ 15 == 0 /\ ~ py_sum [500; 250] == 0).
  { split; [reflexivity|]. split; discriminate. }
  split; [exact H|].
  destruct H as (H1 & H2 & H3).
  exact (layout_high_canvas_strip [500; 250] 75 0 15 50 H1 H2 H3).
Defined.

(** The leftover canvas has the area of the canvas less the sizes of the
    band, and ends at the far corner of the canvas. *)
Theorem leftover_complement (current : list Q) (x y dx dy : Q) :
  ~ dx == 0 -> ~ dy == 0 ->
  exists lx ly ldx ldy,
    leftover current x y dx dy = Ok (lx, ly, ldx, ldy) /\
    ldx * ldy == dx * dy - py_sum current /\
    lx + ldx == x + dx /\ ly + ldy == y + dy.
Proof.
  intros Hdx Hdy. unfold leftover, leftoverrow, leftovercol.
  destruct (Qle_bool dy dx); rewrite py_div_ok by assumption; cbn [bind];
    do 4 eexists; (split; [reflexivity|]); repeat split; try lra; field; assumption.
Qed.

Lemma leftover_complement_witness :
  (~ 90 == 0 /\ ~ 50 == 0) /\
  exists lx ly ldx ldy,
    leftover [3750] 0 0 90 50 = Ok (lx, ly, ldx, ldy) /\
    ldx * ldy == 90 * 50 - py_sum [3750] /\
    lx + ldx == 0 + 90 /\ ly + ldy == 0 + 50.
Proof.
  assert (H : ~ 90 == 0 /\ ~ 50 == 0) by (split; discriminate).
  split; [exact H|].
  destruct H as (H1 & H2).
  exact (leftover_complement [3750] 0 0 90 50 H1 H2).
Defined.

(** The spacing keeps a rectangle inside the rectangle it is made from
    and keeps its centre. *)
Theorem create_rectangle_centred (x y dx dy : Q) :
  let r := create_rectangle x y dx dy in
  inside x y dx dy r /\
  rx r + rdx r / 2 == x + dx / 2 /\
  ry r + rdy r / 2 == y + dy / 2.
Proof.
  unfold create_rectangle, inside.
  destruct (Qlt_bool 2 dx); destruct (Qlt_bool 2 dy); simpl; repeat split;
    try lra; field.
Qed.

(** ** The worst aspect ratio *)

Lemma py_max2_spec (a b : Q) :
  a <= py_max2 a b /\ b <= py_max2 a b /\ (py_max2 a b = a \/ py_max2 a b = b).
Proof.
  unfold py_max2. destruct (Qlt_bool a b) eqn:E.
  - apply Qlt_bool_iff in E. repeat split; try lra. now right.
  - apply Qlt_bool_false_iff in E. repeat split; try lra. now left.
Qed.

Lemma fold_py_max2_spec (qs : list Q) :
  forall (q : Q),
    q <= fold_left py_max2 qs q /\
    Forall (fun q' => q' <= fold_left py_max2 qs q) qs /\
    (fold_left py_max2 qs q = q \/ In (fold_left py_max2 qs q) qs).
Proof.
  induction qs as [|q' qs IH]; intros q; simpl.
  - repeat split; [lra|constructor|now left].
  - destruct (IH (py_max2 q q')) as (H1 & H2 & H3).
    destruct (py_max2_spec q q') as (Ha & Hb & Hc).
    split; [lra|]. split; [constructor; [lra|exact H2]|].
    destruct H3 as [H3|H3]; [|right; now right].
    rewrite H3. destruct Hc as [-> | ->]; [now left|right; now left].
Qed.

Lemma py_max_spec (qs : list Q) (w : Q) :
  py_max qs = Ok w -> Forall (fun q => q <= w) qs /\ In w qs.
Proof.
  destruct qs as [|q qs]; simpl; [discriminate|]. intros [= <-].
  destruct (fold_py_max2_spec qs q) as (H1 & H2 & H3).
  split; [constructor; assumption|].
  destruct H3 as [-> |H3]; [now left|now right].
Qed.

Lemma py_div_inv (a b q : Q) : py_div a b = Ok q -> q = a / b /\ ~ b == 0.
Proof.
  unfold py_div. destruct (Qeq_bool b 0) eqn:E; [discriminate|].
  intros [= <-]. split; [reflexivity|].
  intros Hb. apply Qeq_bool_iff in Hb. congruence.
Qed.

Lemma ratios_spec (rects : list Rect) :
  forall (qs : list Q),
    ratios rects = Ok qs ->
    Forall2 (fun r q => q = py_max2 (rdx r / rdy r) (rdy r / rdx r)) rects qs.
Proof.
  induction rects as [|r rects IH]; intros qs; simpl.
  - intros [= <-]. constructor.
  - destruct (py_div (rdx r) (rdy r)) as [a|] eqn:Ea; cbn [bind]; [|discriminate].
    destruct (py_div (rdy r) (rdx r)) as [b|] eqn:Eb; cbn [bind]; [|discriminate].
    destruct (ratios rects) as [qs'|]; cbn [bind]; [|discriminate].
    intros [= <-]. apply py_div_inv in Ea, Eb.
    destruct Ea as [-> _], Eb as [-> _]. constructor; [reflexivity|now apply IH].
Qed.

Lemma ratios_bounded (rects : list Rect) (qs : list Q) (w : Q) :
  Forall2 (fun r q => q = py_max2 (rdx r / rdy r) (rdy r / rdx r)) rects qs ->
  Forall (fun q => q <= w) qs ->
  Forall (fun r => rdx r / rdy r <= w /\ rdy r / rdx r <= w) rects.
Proof.
  induction 1 as [|r q rects qs Hq _ IH]; intros Hle; [constructor|].
  inversion Hle as [|? ? Hq' Hle']; subst.
  destruct (py_max2_spec (rdx r / rdy r) (rdy r / rdx r)) as (Ha & Hb & _).
  constructor; [split; lra|now apply IH].
Qed.

Lemma ratios_attained (rects : list Rect) (qs : list Q) (w : Q) :
  Forall2 (fun r q => q = py_max2 (rdx r / rdy r) (rdy r / rdx r)) rects qs ->
  In w qs ->
  Exists (fun r => w = rdx r / rdy r \/ w = rdy r / rdx r) rects.
Proof.
  induction 1 as [|r q rects qs Hq _ IH]; intros Hin; [destruct Hin|].
  destruct Hin as [<- |Hin]; [|apply Exists_cons_tl; now apply IH].
  apply Exists_cons_hd. rewrite Hq.
  destruct (py_max2_spec (rdx r / rdy r) (rdy r / rdx r)) as (_ & _ & [-> | ->]); auto.
Qed.

Lemma worst_spec (sizes : list Q) (x y dx dy : Q) (i : nat) (w : Q) :
  worst sizes x y dx dy i = Ok w ->
  exists rects,
    layout (slice_to i sizes) x y dx dy = Ok rects /\
    Forall (fun r => rdx r / rdy r <= w /\ rdy r / rdx r <= w) rects /\
    Exists (fun r => w = rdx r / rdy r \/ w = rdy r / rdx r) rects.
Proof.
  unfold worst.
  destruct (layout (slice_to i sizes) x y dx dy) as [rects|]; cbn [bind]; [|discriminate].
  destruct (ratios rects) as [qs|] eqn:Er; cbn [bind]; [|discriminate].
  intros Hmax. apply py_max_spec in Hmax. destruct Hmax as [Hle Hin].
  apply ratios_spec in Er. exists rects. split; [reflexivity|].
  split; [now apply (ratios_bounded rects qs)|now apply (ratios_attained rects qs)].
Qed.

(** When [worst(i)] returns, its value is the aspect ratio of one of the
    rectangles that [__layout] makes of the first [i] sizes, one way
    round or the other, and no rectangle of that band has a greater
    ratio either way round. *)
Theorem worst_is_largest_ratio (sizes : list Q) (x y dx dy : Q) (i : nat) (w : Q) :
  worst sizes x y dx dy i = Ok w ->
  exists rects,
    layout (slice_to i sizes) x y dx dy = Ok rects /\
    Forall (fun r => rdx r / rdy r <= w /\ rdy r / rdx r <= w) rects /\
    Exists (fun r => w = rdx r / rdy r \/ w = rdy r / rdx r) rects.
Proof. apply worst_spec. Qed.

Lemma worst_is_largest_ratio_witness :
  exists w,
    worst [3750; 750] 0 0 90 50 2 = Ok w /\
    exists rects,
      layout (slice_to 2 [3750; 750]) 0 0 90 50 = Ok rects /\
      Forall (fun r => rdx r / rdy r <= w /\ rdy r / rdx r <= w) rects /\
      Exists (fun r => w = rdx r / rdy r \/ w = rdy r / rdx r) rects.
Proof.
  eexists. split; [vm_compute; reflexivity|].
  refine (worst_is_largest_ratio [3750; 750] 0 0 90 50 2 _ _).
  vm_compute. reflexivity.
Defined.

(** On strictly positive sizes and a strictly positive canvas, the worst
    aspect ratio of a non-empty prefix is at least 1. *)
Theorem worst_at_least_one (sizes : list Q) (x y dx dy : Q) (i : nat) :
  positive sizes -> sizes <> [] -> 0 < dx -> 0 < dy -> (1 <= i)%nat ->
  exists w, worst sizes x y dx dy i = Ok w /\ 1 <= w.
Proof.
  intros Hpos Hne Hdx Hdy Hi.
  destruct (worst_ok sizes x y dx dy i Hpos Hne Hdx Hdy Hi) as (w & Ew).
  exists w. split; [exact Ew|].
  destruct (worst_spec sizes x y dx dy i w Ew) as (rects & El & Hle & Hex).
  rewrite layout_pad in El. unfold slice_to in El.
  destruct (layout_unpadded_spec (firstn i sizes) x y dx dy)
    as (raws & E & _ & Hp & _); auto using positive_firstn, firstn_nonempty.
  rewrite E in El. simpl in El. injection El as <-.
  apply Exists_exists in Hex. destruct Hex as (r & Hin & _).
  eapply Forall_forall in Hle; [|exact Hin].
  apply in_map_iff in Hin. destruct Hin as (raw & <- & Hraw).
  eapply Forall_forall in Hp; [|exact Hraw].
  destruct Hp as [Hx Hy]. destruct (pad_pos raw Hx Hy) as [Hpx Hpy].
  destruct Hle as [H1 H2].
  destruct (Qlt_le_dec (rdx (pad raw)) (rdy (pad raw))) as [Hlt|Hge].
  - assert (1 <= rdy (pad raw) / rdx (pad raw))
      by (apply Qle_shift_div_l; [exact Hpx|lra]).
    lra.
  - assert (1 <= rdx (pad raw) / rdy (pad raw))
      by (apply Qle_shift_div_l; [exact Hpy|lra]).
    lra.
Qed.

Lemma worst_at_least_one_witness :
  (positive [3750; 750] /\ [3750; 750] <> [] /\ 0 < 90 /\ 0 < 50 /\ (1 <= 1)%nat) /\
  exists w, worst [3750; 750] 0 0 90 50 1 = Ok w /\ 1 <= w.
Proof.
  assert (H : positive [3750; 750] /\ [3750; 750] <> [] /\ 0 < 90 /\ 0 < 50
              /\ (1 <= 1)%nat).
  { split; [repeat constructor|]. split; [discriminate|].
    split; [reflexivity|]. split; [reflexivity|]. apply le_n. }
  split; [exact H|].
  destruct H as (H1 & H2 & H3 & H4 & H5).
  exact (worst_at_least_one [3750; 750] 0 0 90 50 1 H1 H2 H3 H4 H5).
Defined.

(** * Further properties of the data shaping *)

Lemma shape_items_acc (items : list (string * value)) :
  forall (values : list Q) (labels color_keys : list string),
    shape_items items values labels color_keys
    = join3 (values, labels, color_keys) (shape_items items [] [] []).
Proof.
  induction items as [|[key val] items IH]; intros values labels color_keys.
  - simpl. now rewrite !app_nil_r.
  - cbn [shape_items].
    destruct (match val with
              | VDict sub => sum_items sub None 0
              | _ => (None, 0)
              end) as [[c|] val_sum]; [|apply IH].
    destruct (Qlt_bool 0 val_sum); [|apply IH].
    rewrite (IH (values ++ [val_sum])), (IH ([] ++ [val_sum])).
    destruct (shape_items items [] [] []) as [[vs ls] cs]. simpl.
    now rewrite <- !app_assoc.
Qed.

Lemma shape_items_app (a b : list (string * value)) :
  forall (values : list Q) (labels color_keys : list string),
    shape_items (a ++ b) values labels color_keys
    = let '(vs, ls, cs) := shape_items a values labels color_keys in
      shape_items b vs ls cs.
Proof.
  induction a as [|[key val] a IH]; intros values labels color_keys.
  - reflexivity.
  - cbn [app shape_items].
    destruct (match val with
              | VDict sub => sum_items sub None 0
              | _ => (None, 0)
              end) as [[c|] val_sum]; [|apply IH].
    destruct (Qlt_bool 0 val_sum); apply IH.
Qed.

Lemma transform_items_app (a b : list (string * value)) :
  transform_to_tree_data (VDict (a ++ b))
  = join3 (transform_to_tree_data (VDict a)) (transform_to_tree_data (VDict b)).
Proof.
  unfold transform_to_tree_data. rewrite shape_items_app.
  destruct (shape_items a [] [] []) as [[vs ls] cs].
  apply shape_items_acc.
Qed.

(** Shaping goes entry by entry: the shaping of two mappings put one
    after the other is the shaping of the first followed by the shaping
    of the second, in each of the three sequences. *)
Theorem transform_concatenation (a b : list (string * value)) :
  transform_to_tree_data (VDict (a ++ b))
  = join3 (transform_to_tree_data (VDict a)) (transform_to_tree_data (VDict b)).
Proof. apply transform_items_app. Qed.

Lemma transform_dropped (kv : string * value) :
  retained kv = false -> transform_to_tree_data (VDict [kv]) = ([], [], []).
Proof.
  intros Hr. unfold transform_to_tree_data.
  destruct (shape_items_spec [kv] [] [] []) as (vs & ls & cs & -> & Hls & Hvs & Hcs).
  cbn [filter] in Hls, Hvs, Hcs. rewrite Hr in Hls, Hvs, Hcs.
  inversion Hvs. inversion Hcs. now subst.
Qed.

(** The entries that are not kept contribute nothing: removing them from
    the mapping beforehand leaves the three sequences as they are. *)
Theorem transform_ignores_dropped (items : list (string * value)) :
  transform_to_tree_data (VDict (filter retained items))
  = transform_to_tree_data (VDict items).
Proof.
  induction items as [|kv items IH]; [reflexivity|].
  change (kv :: items) with ([kv] ++ items).
  rewrite (transform_items_app [kv] items). cbn [filter app].
  destruct (retained kv) eqn:Hr.
  - change (kv :: filter retained items) with ([kv] ++ filter retained items).
    now rewrite (transform_items_app [kv]), IH.
  - rewrite IH, (transform_dropped kv Hr).
    now destruct (transform_to_tree_data (VDict items)) as [[vs ls] cs].
Qed.

Lemma numeric_positive_sum (sub : list (string * value)) :
  no_negative sub -> numeric_sum sub == positive_sum sub.
Proof.
  induction 1 as [|[k v] sub Hv _ IH]; simpl; [reflexivity|].
  simpl in Hv. destruct (as_number v) as [n|]; [|exact IH].
  destruct (Qlt_bool 0 n) eqn:E; [rewrite IH; reflexivity|].
  apply Qlt_bool_false_iff in E. rewrite IH. lra.
Qed.

(** When no sub-mapping holds a negative number, the weight of every
    kept key is the sum of the strictly positive values of its
    sub-mapping. *)
Theorem weights_without_negatives (items : list (string * value)) :
  (forall key sub, In (key, VDict sub) items -> no_negative sub) ->
  weights_are_positive_sums items.
Proof.
  intros Hnn. unfold weights_are_positive_sums, transform_to_tree_data.
  destruct (shape_items_spec items [] [] []) as (vs & ls & cs & -> & _ & Hvs & _).
  simpl.
  assert (Hin : Forall (fun kv => In kv items) (filter retained items)).
  { apply Forall_forall. intros kv Hkv. now apply filter_In in Hkv. }
  induction Hvs as [|w kv vs kvs (sub & Esub & Hw & _) _ IH]; [constructor|].
  inversion Hin as [|? ? Hkv Hin']; subst.
  constructor; [|now apply IH].
  exists sub. split; [exact Esub|].
  rewrite Hw. apply numeric_positive_sum.
  destruct kv as [key val]. simpl in Esub. subst val. now apply (Hnn key).
Qed.

Lemma weights_without_negatives_witness :
  let items := [("host1"%string,
                 VDict [("high"%string, VNum 12); ("medium"%string, VNum 4);
                        ("low"%string, VNum 0)])] in
  (forall key sub, In (key, VDict sub) items -> no_negative sub) /\
  weights_are_positive_sums items.
Proof.
  intros items.
  assert (H : forall key sub, In (key, VDict sub) items -> no_negative sub).
  { intros key sub [[= <- <-]|[]]. repeat constructor; simpl; discriminate. }
  split; [exact H|].
  exact (weights_without_negatives items H).
Defined.

(** * Further properties of the rendering *)

Lemma len_zero (l : string) : len l == 0 -> l = EmptyString.
Proof.
  destruct l as [|c l]; [reflexivity|]. unfold len. intros H. exfalso.
  assert (0 < inject_Z (Z.of_nat (String.length (String c l)))).
  { replace 0 with (inject_Z 0) by reflexivity. rewrite <- Zlt_Qlt.
    simpl String.length. lia. }
  lra.
Qed.




(** ** When [treemap] returns and when it raises *)



Lemma render_loop_div_only (fontsize : Q) (border_color : string)
  (title_color : list (string * string)) (label color_keys : list string)
  (rects : list Rect) :
  forall (i : nat) (elements : list Element),
    (i + List.length rects <= List.length label)%nat ->
    (i + List.length rects <= List.length color_keys)%nat ->
    div_only (render_loop rects i label color_keys fontsize border_color
                title_color elements).
Proof.
  induction rects as [|d rects IH]; intros i elements Hl Hk; simpl; [exact I|].
  simpl in Hl, Hk. unfold py_index.
  destruct (nth_error label i) as [l|] eqn:El;
    [|apply nth_error_None in El; lia].
  destruct (nth_error color_keys i) as [k|] eqn:Ek;
    [|apply nth_error_None in Ek; lia].
  cbn [bind]. apply div_only_bind; [apply py_div_div_only|]. intros q _.
  cbn [bind]. apply IH; lia.
Qed.

Lemma render_loop_empty_label (fontsize : Q) (border_color : string)
  (title_color : list (string * string)) (label color_keys : list string)
  (rects : list Rect) :
  forall (i j : nat) (elements : list Element),
    (i + List.length rects <= List.length label)%nat ->
    (i + List.length rects <= List.length color_keys)%nat ->
    (j < List.length rects)%nat -> nth_error label (i + j) = Some EmptyString ->
    render_loop rects i label color_keys fontsize border_color title_color elements
    = Raise ZeroDivisionError.
Proof.
  induction rects as [|d rects IH]; intros i j elements Hl Hk Hj He;
    simpl in Hj; [lia|].
  simpl in Hl, Hk. cbn [render_loop]. unfold py_index.
  destruct (nth_error label i) as [l|] eqn:El;
    [|apply nth_error_None in El; lia].
  destruct (nth_error color_keys i) as [k|] eqn:Ek;
    [|apply nth_error_None in Ek; lia].
  cbn [bind]. destruct j as [|j].
  - rewrite Nat.add_0_r, El in He. injection He as ->.
    rewrite py_div_zero; [reflexivity|].
    change (len EmptyString) with 0. ring.
  - pose proof (py_div_div_only (rdx d) (len l * fontsize)) as Hd.
    destruct (py_div (rdx d) (len l * fontsize)) as [q|e]; cbn [bind];
      [|simpl in Hd; now rewrite Hd].
    apply (IH (S i) j); try lia.
    now replace (S i + j)%nat with (i + S j)%nat by lia.
Qed.

Lemma transform_lengths (data : value) :
  let '(values, labels, color_keys) := transform_to_tree_data data in
  List.length labels = List.length values /\
  List.length color_keys = List.length values /\
  positive values.
Proof.
  destruct data; simpl; try (repeat split; constructor).
  destruct (shape_items_spec items [] [] []) as (vs & ls & cs & -> & Hls & Hvs & Hcs).
  simpl. pose proof (Forall2_length Hvs) as Hv. pose proof (Forall2_length Hcs) as Hc.
  rewrite Hls, length_map. repeat split; try lia.
  clear -Hvs. induction Hvs as [|w kv vs kvs (sub & _ & _ & Hw) _ IH];
    constructor; assumption.
Qed.

(** Whatever the input and the arguments, [treemap] either returns a
    document or raises [ZeroDivisionError]: the labels and the colour
    keys are never indexed out of range. *)
Theorem treemap_only_division_error (colors : list (string * string)) (data : value)
  (width height fontsize : Q) (border_color : string)
  (title_color : option (list (string * string))) :
  (exists doc,
     treemap colors data width height fontsize border_color title_color = Ok doc) \/
  treemap colors data width height fontsize border_color title_color
  = Raise ZeroDivisionError.
Proof.
  unfold treemap. fold (palette_of colors title_color).
  pose proof (transform_lengths data) as Hlen.
  destruct (transform_to_tree_data data) as [[sizes label] color_keys].
  destruct Hlen as (Hl & Hk & _).
  destruct (squarify_outcome sizes 0 0 width height) as [(rects & -> & Hr)| ->];
    cbn [bind]; [|now right].
  pose proof (render_loop_div_only fontsize border_color
                (palette_of colors title_color) label color_keys rects 0 []) as Hd.
  destruct (render_loop rects 0 label color_keys fontsize border_color
              (palette_of colors title_color) []) as [out|e]; cbn [bind].
  - left. eexists. reflexivity.
  - right. simpl in Hd. rewrite Hd; [reflexivity| |]; simpl; lia.
Qed.

(** On a strictly positive canvas, a kept entry under the empty key makes
    [treemap] raise [ZeroDivisionError], whatever the other entries
    are. *)
Theorem treemap_empty_key_raises (colors : list (string * string))
  (items : list (string * value)) (v : value) (width height fontsize : Q)
  (border_color : string) (title_color : option (list (string * string))) :
  0 < width -> 0 < height ->
  In (EmptyString, v) items -> retained (EmptyString, v) = true ->
  treemap colors (VDict items) width height fontsize border_color title_color
  = Raise ZeroDivisionError.
Proof.
  intros Hw Hh Hin Hret. unfold treemap, transform_to_tree_data.
  fold (palette_of colors title_color).
  destruct (shape_items_spec items [] [] []) as (vs & ls & cs & -> & Hls & Hvs & Hcs).
  simpl.
  assert (Hpos : positive vs).
  { clear -Hvs. induction Hvs as [|w kv vs kvs (sub & _ & _ & Hw) _ IH];
      constructor; assumption. }
  destruct (squarify_unpadded_spec vs 0 0 width height Hpos Hw Hh)
    as (raws & _ & -> & Hshare & _).
  cbn [bind].
  pose proof (Forall2_length Hshare) as Hlr.
  pose proof (Forall2_length Hvs) as Hlv.
  pose proof (Forall2_length Hcs) as Hlc.
  assert (Hkept : In (EmptyString, v) (filter retained items))
    by (apply filter_In; now split).
  apply In_nth_error in Hkept. destruct Hkept as (j & Hj).
  assert (Hjl : (j < List.length (filter retained items))%nat)
    by (apply nth_error_Some; now rewrite Hj).
  rewrite (render_loop_empty_label fontsize border_color _ ls cs (map pad raws) 0 j []);
    [reflexivity|..].
  - rewrite length_map, Hls, length_map. simpl. lia.
  - rewrite length_map. simpl. lia.
  - rewrite length_map. lia.
  - simpl. rewrite Hls. now apply (map_nth_error fst) in Hj.
Qed.

Lemma treemap_empty_key_raises_witness :
  let v := VDict [("low"%string, VNum 2)] in
  let items := [("host1"%string, VDict [("high"%string, VNum 12)]); (EmptyString, v)] in
  (0 < 1024 /\ 0 < 768 /\ In (EmptyString, v) items /\
   retained (EmptyString, v) = true) /\
  treemap [] (VDict items) 1024 768 11 "#ffffff"%string None
  = Raise ZeroDivisionError.
Proof.
  intros v items.
  assert (H : 0 < 1024 /\ 0 < 768 /\ In (EmptyString, v) items /\
              retained (EmptyString, v) = true).
  { split; [reflexivity|]. split; [reflexivity|].
    split; [right; left; reflexivity|reflexivity]. }
  split; [exact H|].
  destruct H as (H1 & H2 & H3 & H4).
  exact (treemap_empty_key_raises [] items v 1024 768 11 "#ffffff"%string None
           H1 H2 H3 H4).
Defined.

(** With at least one kept entry, a width or height of zero makes
    [treemap] raise [ZeroDivisionError]. *)
Theorem treemap_zero_canvas_raises (colors : list (string * string))
  (items : list (string * value)) (width height fontsize : Q)
  (border_color : string) (title_color : option (list (string * string))) :
  filter retained items <> [] -> width * height == 0 ->
  treemap colors (VDict items) width height fontsize border_color title_color
  = Raise ZeroDivisionError.
Proof.
  intros Hkept Hzero. unfold treemap, transform_to_tree_data.
  destruct (shape_items_spec items [] [] []) as (vs & ls & cs & -> & _ & Hvs & _).
  simpl.
  rewrite squarify_degenerate; [reflexivity| |now left].
  intros ->. apply Hkept. now inversion Hvs.
Qed.

Lemma treemap_zero_canvas_raises_witness :
  let items := [("host1"%string, VDict [("high"%string, VNum 12)])] in
  (filter retained items <> [] /\ 1024 * 0 == 0) /\
  treemap [] (VDict items) 1024 0 11 "#ffffff"%string None
  = Raise ZeroDivisionError.
Proof.
  intros items.
  assert (H : filter retained items <> [] /\ 1024 * 0 == 0).
  { split; [discriminate|reflexivity]. }
  split; [exact H|].
  destruct H as (H1 & H2).
  exact (treemap_zero_canvas_raises [] items 1024 0 11 "#ffffff"%string None H1 H2).
Defined.

(** * Further properties of the split search and the rescaling *)

(** Whatever the sizes and the canvas, an index that the split search
    returns for two sizes or more leaves at least one size before it and
    one after it. *)
Theorem find_split_in_range (sizes : list Q) (x y dx dy : Q) (i : nat) :
  (2 <= List.length sizes)%nat ->
  find_split sizes x y dx dy = Ok i ->
  (1 <= i < List.length sizes)%nat /\
  slice_to i sizes <> [] /\ slice_from i sizes <> [] /\
  (List.length (slice_from i sizes) < List.length sizes)%nat.
Proof.
  intros Hlen Hi. pose proof (find_split_bounds sizes x y dx dy i Hlen Hi) as Hb.
  split; [exact Hb|].
  assert (Hs : List.length (slice_from i sizes) = (List.length sizes - i)%nat)
    by apply length_skipn.
  split; [|split; [|lia]].
  - apply firstn_nonempty; [lia|]. intros ->. simpl in Hlen. lia.
  - intros E. rewrite E in Hs. simpl in Hs. lia.
Qed.

Lemma find_split_in_range_witness :
  exists i,
    ((2 <= List.length [5; -3; 0; 1]%Q)%nat /\
     find_split [5; -3; 0; 1]%Q 0 0 90 50 = Ok i) /\
    (1 <= i < List.length [5; -3; 0; 1]%Q)%nat /\
    slice_to i [5; -3; 0; 1]%Q <> [] /\ slice_from i [5; -3; 0; 1]%Q <> [] /\
    (List.length (slice_from i [5; -3; 0; 1]%Q) < List.length [5; -3; 0; 1]%Q)%nat.
Proof.
  exists 1%nat.
  assert (H : (2 <= List.length [5; -3; 0; 1]%Q)%nat /\
              find_split [5; -3; 0; 1]%Q 0 0 90 50 = Ok 1%nat).
  { split; [simpl; lia|vm_compute; reflexivity]. }
  split; [exact H|].
  destruct H as (H1 & H2).
  exact (find_split_in_range [5; -3; 0; 1]%Q 0 0 90 50 1 H1 H2).
Defined.

(** When the sizes do not add up to zero, the rescaling succeeds, keeps
    the number and the order of the sizes, multiplies each by
    [total_area / total_size], and yields sizes that add up to the
    area. *)
Theorem rescale_sums_to_area (sizes : list Q) (total_area : Q) :
  ~ py_sum sizes == 0 ->
  exists sizes',
    rescale sizes total_area (py_sum sizes) = Ok sizes' /\
    Forall2 (fun s' s => s' == s * (total_area / py_sum sizes)) sizes' sizes /\
    py_sum sizes' == total_area.
Proof.
  intros HT. rewrite rescale_ok by exact HT. eexists. split; [reflexivity|]. split.
  - assert (H : forall (t : Q) (l : list Q),
                 Forall2 (fun s' s => s' == s * (total_area / t))
                   (map (fun s => s * total_area / t) l) l).
    { intros t l. induction l as [|s l IH]; simpl; constructor; [|exact IH].
      unfold Qdiv. ring. }
    apply H.
  - rewrite py_sum_map_scale by exact HT. field. exact HT.
Qed.

Lemma rescale_sums_to_area_witness :
  ~ py_sum [5; 1] == 0 /\
  exists sizes',
    rescale [5; 1] 4500 (py_sum [5; 1]) = Ok sizes' /\
    Forall2 (fun s' s => s' == s * (4500 / py_sum [5; 1])) sizes' [5; 1] /\
    py_sum sizes' == 4500.
Proof.
  assert (H : ~ py_sum [5; 1] == 0) by discriminate.
  split; [exact H|].
  exact (rescale_sums_to_area [5; 1] 4500 H).
Defined.
